(** * Live-transcription relay (server.ts): model and verification

    The server authenticates a WebSocket client by a signed token carried in
    the [sec-websocket-protocol] header, opens a companion WebSocket to the
    upstream speech service and relays frames both ways.

    The development follows the source file top to bottom:
    - [JsString]: the string methods the code calls ([split], [trim],
      [startsWith], [slice]);
    - [UrlSearch]: [URLSearchParams] ([get], [set]) and the serialisation
      that [URL.toString] applies to it, with the standard parser used to
      read a built URL back;
    - the environment [Env]: process environment, the [jsonwebtoken]
      library and the runtime behaviours the code only calls;
    - [validateWsToken], [buildDeepgramUrl], the [fetch] router, the
      [websocket] handlers, [gracefulShutdown] and the process handlers,
      written in a small state-and-exception monad over the [World].

    Console output ([console.log], [console.error]) has no influence on
    control flow or on any object and is left out of the model. *)

From Stdlib Require Import String Ascii List ZArith Lia Bool.
From stdpp Require Import base option list.

Local Open Scope string_scope.
Local Open Scope list_scope.

Infix "+:+" := String.append (at level 60, right associativity) : string_scope.

(** ** Strings as the code uses them *)

Module JsString.

(** Header values are byte strings (one character per code unit below 256),
    so the white space that [String.prototype.trim] removes is TAB, LF, VT,
    FF, CR, SPACE and NO-BREAK SPACE. *)
Definition isWhiteSpace (c : ascii) : bool :=
  let n := nat_of_ascii c in
  (n =? 9)%nat || (n =? 10)%nat || (n =? 11)%nat || (n =? 12)%nat
  || (n =? 13)%nat || (n =? 32)%nat || (n =? 160)%nat.

Fixpoint trimStart (s : string) : string :=
  match s with
  | EmptyString => EmptyString
  | String c s' => if isWhiteSpace c then trimStart s' else s
  end.

Fixpoint trimEnd (s : string) : string :=
  match s with
  | EmptyString => EmptyString
  | String c s' =>
      match trimEnd s' with
      | EmptyString => if isWhiteSpace c then EmptyString else String c EmptyString
      | t => String c t
      end
  end.

(** [s.trim()] *)
Definition trim (s : string) : string := trimEnd (trimStart s).

(** [s.split(sep)] for a one-character separator: never empty, the pieces
    between consecutive separators (["".split(",")] is [[""]]). *)
Fixpoint split (sep : ascii) (s : string) : list string :=
  match s with
  | EmptyString => [EmptyString]
  | String c s' =>
      if Ascii.eqb c sep then EmptyString :: split sep s'
      else match split sep s' with
           | [] => [String c EmptyString]
           | piece :: pieces => String c piece :: pieces
           end
  end.

(** [s.startsWith(p)] *)
Fixpoint startsWith (s p : string) {struct p} : bool :=
  match p, s with
  | EmptyString, _ => true
  | String a p', String b s' => Ascii.eqb a b && startsWith s' p'
  | String _ _, EmptyString => false
  end.

(** [s.slice(n)] for [0 <= n] *)
Fixpoint slice (n : nat) (s : string) : string :=
  match n, s with
  | O, _ => s
  | S n', String _ s' => slice n' s'
  | S _, EmptyString => EmptyString
  end.

(** [s.includes(c)] for a one-character [c] *)
Fixpoint includes (s : string) (c : ascii) : bool :=
  match s with
  | EmptyString => false
  | String a s' => Ascii.eqb a c || includes s' c
  end.

(** Truthiness of a string value: only the empty string is falsy. *)
Definition truthy (s : string) : bool :=
  match s with EmptyString => false | String _ _ => true end.

End JsString.

(** ** URLSearchParams and URL

    Query strings are kept as the UTF-8 bytes of their text, one [ascii] per
    byte: the serialiser below works on exactly those bytes, and the parser's
    final UTF-8 decoding is the identity on this representation. *)

Module UrlSearch.

(** The list of name-value pairs behind a [URLSearchParams] object; order
    and duplicates are kept as the standard keeps them. *)
Definition URLSearchParams : Type := list (string * string).

(** [params.get(name)]: the value of the first pair named [name], or null. *)
Fixpoint get (params : URLSearchParams) (name : string) : option string :=
  match params with
  | [] => None
  | (k, v) :: rest => if String.eqb k name then Some v else get rest name
  end.

(** [params.set(name, value)]: overwrite the first pair named [name] and
    drop the others, or append a new pair. *)
Fixpoint set (params : URLSearchParams) (name value : string) : URLSearchParams :=
  match params with
  | [] => [(name, value)]
  | (k, v) :: rest =>
      if String.eqb k name
      then (k, value) :: List.filter (fun p => negb (String.eqb (fst p) name)) rest
      else (k, v) :: set rest name value
  end.

(** Bytes the application/x-www-form-urlencoded serialiser leaves as they
    are: ASCII letters and digits, and [*], [-], [.], [_]. *)
Definition unreserved (c : ascii) : bool :=
  let n := nat_of_ascii c in
  ((48 <=? n) && (n <=? 57))%nat || ((65 <=? n) && (n <=? 90))%nat
  || ((97 <=? n) && (n <=? 122))%nat
  || (n =? 42)%nat || (n =? 45)%nat || (n =? 46)%nat || (n =? 95)%nat.

Definition hexDigit (n : nat) : ascii :=
  if (n <? 10)%nat then ascii_of_nat (48 + n) else ascii_of_nat (55 + n).

Definition percentEncodeByte (c : ascii) : string :=
  if unreserved c then String c EmptyString
  else if Ascii.eqb c " " then "+"
  else let n := nat_of_ascii c in
       String "%" (String (hexDigit (n / 16)) (String (hexDigit (n mod 16)) EmptyString)).

Fixpoint urlencode (s : string) : string :=
  match s with
  | EmptyString => EmptyString
  | String c s' => percentEncodeByte c +:+ urlencode s'
  end.

(** The serialiser: [name=value] pairs joined by [&]. *)
Fixpoint serialize (params : URLSearchParams) : string :=
  match params with
  | [] => EmptyString
  | (k, v) :: rest =>
      urlencode k +:+ "=" +:+ urlencode v +:+
      match rest with
      | [] => EmptyString
      | _ :: _ => "&" +:+ serialize rest
      end
  end.

Definition hexValue (c : ascii) : option nat :=
  let n := nat_of_ascii c in
  if ((48 <=? n) && (n <=? 57))%nat then Some (n - 48)%nat
  else if ((65 <=? n) && (n <=? 70))%nat then Some (n - 55)%nat
  else if ((97 <=? n) && (n <=? 102))%nat then Some (n - 87)%nat
  else None.

(** Percent-decoding: [%XY] with two hexadecimal digits is one byte, every
    other byte stands for itself. *)
Fixpoint percentDecode (s : string) : string :=
  match s with
  | EmptyString => EmptyString
  | String c rest =>
      if Ascii.eqb c "%" then
        match rest with
        | String h (String l rest') =>
            match hexValue h, hexValue l with
            | Some a, Some b => String (ascii_of_nat (16 * a + b)) (percentDecode rest')
            | _, _ => String c (percentDecode rest)
            end
        | _ => String c (percentDecode rest)
        end
      else String c (percentDecode rest)
  end.

Fixpoint plusToSpace (s : string) : string :=
  match s with
  | EmptyString => EmptyString
  | String c s' => String (if Ascii.eqb c "+" then " "%char else c) (plusToSpace s')
  end.

Definition urldecode (s : string) : string := percentDecode (plusToSpace s).

(** Cut a sequence at its first [stop]: what stands before it and what
    stands after it (nothing when there is none). *)
Fixpoint cutAt (stop : ascii) (s : string) : string * string :=
  match s with
  | EmptyString => (EmptyString, EmptyString)
  | String c s' =>
      if Ascii.eqb c stop then (EmptyString, s')
      else let '(before, after) := cutAt stop s' in (String c before, after)
  end.

Definition parsePair (piece : string) : string * string :=
  let '(name, value) := cutAt "=" piece in (urldecode name, urldecode value).

(** The application/x-www-form-urlencoded parser: the non-empty sequences
    between [&], each cut at its first [=] and decoded. *)
Definition parse (query : string) : URLSearchParams :=
  List.map parsePair (List.filter JsString.truthy (JsString.split "&" query)).

(** A URL object, as far as the code uses one: the serialisation up to the
    query, and the query as its [searchParams] list (the URLs here carry no
    fragment). *)
Record URL : Type := mkURL {
  beforeQuery : string;
  searchParams : URLSearchParams
}.

(** [new URL(href)] *)
Definition new_URL (href : string) : URL :=
  let '(before, query) := cutAt "?" href in
  {| beforeQuery := before; searchParams := parse query |}.

(** [url.searchParams.set(name, value)], which also updates the URL. *)
Definition searchParams_set (url : URL) (name value : string) : URL :=
  {| beforeQuery := beforeQuery url; searchParams := set (searchParams url) name value |}.

(** [url.toString()]: an empty serialised query is no query at all. *)
Definition toString (url : URL) : string :=
  match serialize (searchParams url) with
  | EmptyString => beforeQuery url
  | query => beforeQuery url +:+ "?" +:+ query
  end.

End UrlSearch.

Import JsString UrlSearch.

(** ** Environment: what the file reads from outside itself *)

(** What reading and parsing [deepgram.toml] gives [handleMetadata]. *)
Inductive TomlRead : Type :=
| TomlMeta (meta : string)   (* the file parses and has a [meta] section *)
| TomlNoMeta                 (* it parses, without [meta] *)
| TomlFailure.               (* reading or parsing throws *)

(** The process environment, the [jsonwebtoken] library and the runtime
    behaviours the code calls without defining them. *)
Class Env : Type := {
  (** [process.env.DEEPGRAM_API_KEY]; the file exits at start-up when it is
      missing or empty, before anything modelled here runs *)
  DEEPGRAM_API_KEY : string;
  (** [SESSION_SECRET]: from the environment, or random at start-up *)
  SESSION_SECRET : string;
  (** [jwt.verify(token, secret)] run when the clock shows [now]: [true]
      when it returns, [false] when it throws (bad signature, malformed or
      expired token) *)
  jwt_verify : string -> string -> Z -> bool;
  (** [jwt.sign({ iat }, secret, { expiresIn: JWT_EXPIRY })] *)
  jwt_sign : Z -> string -> string -> string;
  (** [TOML.parse(readFileSync(...))] *)
  deepgram_toml : TomlRead;
  (** whether [close] on the client socket [ws] throws *)
  ws_close_throws : nat -> bool;
  (** whether [send] on the client socket [ws] throws *)
  ws_send_throws : nat -> bool;
  (** whether the runtime runs the [close] handler of a client socket
      before [ws.close(...)] returns, or later from the event loop *)
  close_handler_sync : bool
}.

(** The value of [x || dflt] for [x : string | null]. *)
Definition orElse (x : option string) (dflt : string) : string :=
  match x with
  | Some s => if truthy s then s else dflt
  | None => dflt
  end.

(** The truthy values of a [string | null]: what passes an [if (!x) return]. *)
Definition whenTruthy (x : option string) : option string :=
  match x with
  | Some s => if truthy s then Some s else None
  | None => None
  end.

Section Configuration.
Context `{Env}.

Record Config : Type := {
  deepgramApiKey : string;
  deepgramSttUrl : string
}.

(** [CONFIG]; its [port] and [host] only reach [Bun.serve]. *)
Definition CONFIG : Config := {|
  deepgramApiKey := DEEPGRAM_API_KEY;
  deepgramSttUrl := "wss://api.deepgram.com/v1/listen"
|}.

Definition JWT_EXPIRY : string := "1h".

(** [validateWsToken(protocols)]; [now] is the clock [jwt.verify] reads. *)
Definition validateWsToken (now : Z) (protocols : option string) : option string :=
  match whenTruthy protocols with
  | None => None
  | Some protocols =>
      let list := List.map trim (split "," protocols) in
      let tokenProto := List.find (fun p => startsWith p "access_token.") list in
      match whenTruthy tokenProto with
      | None => None
      | Some tokenProto =>
          let token := slice (String.length "access_token.") tokenProto in
          if jwt_verify token SESSION_SECRET now then Some tokenProto else None
      end
  end.

(** [getCorsHeaders()] *)
Definition getCorsHeaders : list (string * string) :=
  [ ("Access-Control-Allow-Origin", "*");
    ("Access-Control-Allow-Methods", "GET, POST, OPTIONS");
    ("Access-Control-Allow-Headers", "Content-Type, Authorization") ].

(** [buildDeepgramUrl(queryParams)] *)
Definition buildDeepgramUrl (queryParams : URLSearchParams) : string :=
  let deepgramUrl := new_URL (deepgramSttUrl CONFIG) in
  let deepgramUrl := searchParams_set deepgramUrl "token" (deepgramApiKey CONFIG) in
  let deepgramUrl := searchParams_set deepgramUrl "model" (orElse (get queryParams "model") "nova-3") in
  let deepgramUrl := searchParams_set deepgramUrl "language" (orElse (get queryParams "language") "en") in
  let deepgramUrl := searchParams_set deepgramUrl "encoding" (orElse (get queryParams "encoding") "linear16") in
  let deepgramUrl := searchParams_set deepgramUrl "sample_rate" (orElse (get queryParams "sample_rate") "16000") in
  let deepgramUrl := searchParams_set deepgramUrl "channels" (orElse (get queryParams "channels") "1") in
  let deepgramUrl := searchParams_set deepgramUrl "smart_format" (orElse (get queryParams "smart_format") "true") in
  let punctuate := get queryParams "punctuate" in
  let diarize := get queryParams "diarize" in
  let fillerWords := get queryParams "filler_words" in
  let deepgramUrl :=
    match punctuate with
    | Some punctuate => searchParams_set deepgramUrl "punctuate" punctuate
    | None => deepgramUrl
    end in
  let deepgramUrl :=
    match diarize with
    | Some diarize => searchParams_set deepgramUrl "diarize" diarize
    | None => deepgramUrl
    end in
  let deepgramUrl :=
    match fillerWords with
    | Some fillerWords => searchParams_set deepgramUrl "filler_words" fillerWords
    | None => deepgramUrl
    end in
  toString deepgramUrl.

(** The query parameters of a URL given as text, read the way any recipient
    reads them: [new URL(href).searchParams]. *)
Definition urlParams (href : string) : URLSearchParams :=
  searchParams (new_URL href).

End Configuration.

(** ** The world the handlers run in *)

(** [WebSocket.readyState] of an upstream socket. *)
Inductive ReadyState : Type := CONNECTING | OPEN | CLOSING | CLOSED.

(** A frame: [string | Buffer]. *)
Inductive Message : Type :=
| TextFrame (text : string)
| BinaryFrame (bytes : string).

(** [WsData]: what Bun keeps per client connection in [ws.data];
    [deepgramWs] refers to an upstream socket of the world. *)
Record WsData : Type := {
  queryParams : URLSearchParams;
  deepgramWs : option nat
}.

(** A client socket is open, or closed by the server, or closed by its
    client. For a close by the server the status holds the close code and
    reason the client is given; [None] stands where [close()] was called
    without that argument and the runtime's default goes out. *)
Inductive WsStatus : Type :=
| WsOpen
| WsClosedByServer (code : option Z) (reason : option string)
| WsClosedByPeer (code : Z) (reason : string).

(** A client connection ([ServerWebSocket<WsData>]). *)
Record ServerWebSocket : Type := {
  data : WsData;
  protocol : string;      (* the [Sec-WebSocket-Protocol] answered at upgrade *)
  status : WsStatus
}.

(** An upstream connection (global [WebSocket]); [listeners] is the client
    socket the four listeners registered in [open] have captured. *)
Record UpstreamWs : Type := {
  url : string;
  readyState : ReadyState;
  listeners : option nat;
  deepgramMessageCount : nat
}.

(** Calls the code makes on objects it does not define, in program order. *)
Inductive Call : Type :=
| NewWebSocket (u : nat) (href : string)                       (* [new WebSocket(href)] *)
| UpstreamSend (u : nat) (message : Message)                   (* frame handed to an open upstream *)
| UpstreamClose (u : nat) (code : Z) (reason : string)         (* closing handshake started upstream *)
| WsSend (ws : nat) (message : Message)                        (* [ws.send(data)] *)
| WsClose (ws : nat) (code : option Z) (reason : option string) (* [ws.close(...)] *)
| ServerStop                                                   (* [server.stop()] *)
| ProcessExit (code : Z).                                      (* [process.exit(code)] *)

(** Sockets are referred to by their position in the world's lists; a Set
    of sockets is the list of its members in insertion order. *)
Record World : Type := {
  activeConnections : list nat;
  clientSockets : list ServerWebSocket;
  upstreamSockets : list UpstreamWs;
  accepting : bool;              (* [false] once [server.stop()] has run *)
  exitStatus : option Z;         (* [Some c] once [process.exit(c)] has run *)
  calls : list Call
}.

(** The world when the server has just started. *)
Definition initialWorld : World := {|
  activeConnections := [];
  clientSockets := [];
  upstreamSockets := [];
  accepting := true;
  exitStatus := None;
  calls := []
|}.

Definition with_activeConnections (f : list nat -> list nat) (w : World) : World :=
  {| activeConnections := f (activeConnections w); clientSockets := clientSockets w;
     upstreamSockets := upstreamSockets w; accepting := accepting w;
     exitStatus := exitStatus w; calls := calls w |}.

Definition with_clientSockets (f : list ServerWebSocket -> list ServerWebSocket) (w : World) : World :=
  {| activeConnections := activeConnections w; clientSockets := f (clientSockets w);
     upstreamSockets := upstreamSockets w; accepting := accepting w;
     exitStatus := exitStatus w; calls := calls w |}.

Definition with_upstreamSockets (f : list UpstreamWs -> list UpstreamWs) (w : World) : World :=
  {| activeConnections := activeConnections w; clientSockets := clientSockets w;
     upstreamSockets := f (upstreamSockets w); accepting := accepting w;
     exitStatus := exitStatus w; calls := calls w |}.

Definition with_accepting (b : bool) (w : World) : World :=
  {| activeConnections := activeConnections w; clientSockets := clientSockets w;
     upstreamSockets := upstreamSockets w; accepting := b;
     exitStatus := exitStatus w; calls := calls w |}.

Definition with_exitStatus (c : option Z) (w : World) : World :=
  {| activeConnections := activeConnections w; clientSockets := clientSockets w;
     upstreamSockets := upstreamSockets w; accepting := accepting w;
     exitStatus := c; calls := calls w |}.

Definition with_call (c : Call) (w : World) : World :=
  {| activeConnections := activeConnections w; clientSockets := clientSockets w;
     upstreamSockets := upstreamSockets w; accepting := accepting w;
     exitStatus := exitStatus w; calls := calls w ++ [c] |}.

Definition set_status (st : WsStatus) (s : ServerWebSocket) : ServerWebSocket :=
  {| data := data s; protocol := protocol s; status := st |}.

Definition set_deepgramWs (u : option nat) (s : ServerWebSocket) : ServerWebSocket :=
  {| data := {| queryParams := queryParams (data s); deepgramWs := u |};
     protocol := protocol s; status := status s |}.

Definition set_readyState (r : ReadyState) (up : UpstreamWs) : UpstreamWs :=
  {| url := url up; readyState := r; listeners := listeners up;
     deepgramMessageCount := deepgramMessageCount up |}.

Definition set_listeners (ws : nat) (up : UpstreamWs) : UpstreamWs :=
  {| url := url up; readyState := readyState up; listeners := Some ws;
     deepgramMessageCount := deepgramMessageCount up |}.

Definition count_message (up : UpstreamWs) : UpstreamWs :=
  {| url := url up; readyState := readyState up; listeners := listeners up;
     deepgramMessageCount := S (deepgramMessageCount up) |}.

(** ** Handlers as computations over the world *)

(** How a piece of code ends: it returns a value or it throws. *)
Inductive Outcome (A : Type) : Type :=
| Returned (a : A)
| Thrown.
Arguments Returned {A} a.
Arguments Thrown {A}.

Definition M (A : Type) : Type := World -> Outcome A * World.

#[global] Instance M_ret : MRet M := fun A a w => (Returned a, w).

#[global] Instance M_bind : MBind M := fun A B k m w =>
  match m w with
  | (Returned a, w') => k a w'
  | (Thrown, w') => (Thrown, w')
  end.

Definition throw {A : Type} : M A := fun w => (Thrown, w).

(** [try { body } catch { handler }] *)
Definition try_catch (body handler : M unit) : M unit := fun w =>
  match body w with
  | (Returned a, w') => (Returned a, w')
  | (Thrown, w') => handler w'
  end.

Definition gets {A : Type} (f : World -> A) : M A := fun w => (Returned (f w), w).

Definition modify (f : World -> World) : M unit := fun w => (Returned tt, f w).

Definition call (c : Call) : M unit := modify (with_call c).

(** The world a computation leaves. *)
Definition exec {A : Type} (m : M A) (w : World) : World := snd (m w).

(** Run [k] on the client socket [ws] (handlers only ever receive sockets
    of the world; on anything else nothing happens). *)
Definition withSocket (ws : nat) (k : ServerWebSocket -> M unit) : M unit :=
  s ← gets (fun w => clientSockets w !! ws);
  match s with
  | Some s => k s
  | None => mret tt
  end.

Definition withUpstream (u : nat) (k : UpstreamWs -> M unit) : M unit :=
  up ← gets (fun w => upstreamSockets w !! u);
  match up with
  | Some up => k up
  | None => mret tt
  end.

(** [set.add(x)] and [set.delete(x)] on a Set kept in insertion order. *)
Definition Set_add (x : nat) (s : list nat) : list nat :=
  if List.existsb (Nat.eqb x) s then s else s ++ [x].

Definition Set_delete (x : nat) (s : list nat) : list nat :=
  List.filter (fun y => negb (Nat.eqb x y)) s.

Definition Set_has (x : nat) (s : list nat) : bool := List.existsb (Nat.eqb x) s.

(** The upstream connections initiated so far: the [new WebSocket(href)]
    calls, in order. *)
Definition connectionsInitiated (w : World) : list (nat * string) :=
  List.flat_map (fun c => match c with NewWebSocket u href => [(u, href)] | _ => [] end)
                (calls w).

(** A computation is quiet when it initiates no upstream connection. *)
Definition quiet {A : Type} (m : M A) : Prop :=
  forall w, connectionsInitiated (snd (m w)) = connectionsInitiated w.

(** The upstream socket a client socket is paired with, when it has one
    and that one is open: the guard of [message] and [close],
    [deepgramWs && deepgramWs.readyState === WebSocket.OPEN]. *)
Definition openUpstream (w : World) (ws : nat) : option (nat * UpstreamWs) :=
  s ← clientSockets w !! ws;
  u ← deepgramWs (data s);
  up ← upstreamSockets w !! u;
  match readyState up with
  | OPEN => Some (u, up)
  | _ => None
  end.

Section Relay.
Context `{Env}.

(** *** Methods of the runtime's objects *)

(** [deepgramWs.send(message)] (WebSocket standard): throws while
    connecting, transmits when open, discards once closing or closed. *)
Definition WebSocket_send (u : nat) (message : Message) : M unit :=
  withUpstream u (fun up =>
    match readyState up with
    | CONNECTING => throw
    | OPEN => call (UpstreamSend u message)
    | CLOSING | CLOSED => mret tt
    end).

(** [deepgramWs.close(code, reason)] (WebSocket standard): the code must be
    1000 or in 3000..4999 and the reason at most 123 bytes; a socket that is
    connecting or open starts closing, any other is left alone. *)
Definition WebSocket_close (u : nat) (code : Z) (reason : string) : M unit :=
  if negb ((code =? 1000)%Z || ((3000 <=? code)%Z && (code <=? 4999)%Z)) then throw
  else if (123 <? String.length reason)%nat then throw
  else withUpstream u (fun up =>
    match readyState up with
    | CONNECTING | OPEN =>
        call (UpstreamClose u code reason) ;;
        modify (with_upstreamSockets (fun l => <[u := set_readyState CLOSING up]> l))
    | CLOSING | CLOSED => mret tt
    end).

(** [new WebSocket(href)]: a fresh upstream socket, connecting. *)
Definition new_WebSocket (href : string) : M nat :=
  u ← gets (fun w => length (upstreamSockets w));
  call (NewWebSocket u href) ;;
  modify (with_upstreamSockets (fun l =>
    l ++ [{| url := href; readyState := CONNECTING; listeners := None;
             deepgramMessageCount := 0 |}])) ;;
  mret u.

(** The four [deepgramWs.addEventListener(...)] of [open]: every listener
    is a closure over the same [ws]. *)
Definition addEventListeners (u ws : nat) : M unit :=
  withUpstream u (fun up =>
    modify (with_upstreamSockets (fun l => <[u := set_listeners ws up]> l))).

(** [ws.send(data)] on a client socket. *)
Definition ServerWebSocket_send (ws : nat) (message : Message) : M unit :=
  call (WsSend ws message) ;;
  if ws_send_throws ws then throw else mret tt.

(** *** [websocket.close(ws, code, reason)] *)
Definition websocket_close (ws : nat) (code : Z) (reason : string) : M unit :=
  modify (with_activeConnections (Set_delete ws)) ;;
  withSocket ws (fun s =>
    let deepgramWs := deepgramWs (data s) in
    match deepgramWs with
    | Some u =>
        withUpstream u (fun up =>
          match readyState up with
          | OPEN => WebSocket_close u 1000 "Client disconnected"
          | _ => mret tt
          end)
    | None => mret tt
    end).

(** A code that a close frame may carry (RFC 6455, 7.4): the registered
    codes 1000 to 1014 without 1004, 1005 and 1006, and the codes 3000 to
    4999 left to libraries and applications. *)
Definition validCloseCode (c : Z) : bool :=
  ((1000 <=? c)%Z && (c <=? 1014)%Z
   && negb ((c =? 1004)%Z || (c =? 1005)%Z || (c =? 1006)%Z))
  || ((3000 <=? c)%Z && (c <=? 4999)%Z).

(** What the client is given when the server calls [ws.close(code, reason)].
    The runtime writes the close frame: for the codes 0, 1005 and 1006 it
    writes neither status nor reason, these codes being reserved for a
    close that came without a status or without a frame (RFC 6455, 7.4.1),
    and the client then has the close code 1005 and an empty reason; for
    any other code it writes the code and the first 123 bytes of the
    reason, a control frame holding no more than 125. *)
Definition closeFrame (code : option Z) (reason : option string) : WsStatus :=
  let sent := option_map (String.substring 0 123) reason in
  match code with
  | Some c =>
      if (c =? 0)%Z || (c =? 1005)%Z || (c =? 1006)%Z
      then WsClosedByServer (Some 1005%Z) (Some EmptyString)
      else WsClosedByServer (Some c) sent
  | None => WsClosedByServer None sent
  end.

(** [ws.close(code, reason)] on a client socket: nothing on a socket that is
    already closed; otherwise the socket closes, the client being given
    what [closeFrame] says, and the runtime calls the [close] handler, at
    once or later. *)
Definition ServerWebSocket_close (ws : nat) (code : option Z) (reason : option string) : M unit :=
  call (WsClose ws code reason) ;;
  if ws_close_throws ws then throw
  else withSocket ws (fun s =>
    match status s with
    | WsOpen =>
        modify (with_clientSockets (fun l => <[ws := set_status (closeFrame code reason) s]> l)) ;;
        if close_handler_sync
        then websocket_close ws (default 1000%Z code) (default EmptyString reason)
        else mret tt
    | _ => mret tt
    end).

(** *** The listeners registered on the upstream socket in [open] *)

Definition deepgramWs_onopen (ws : nat) : M unit := mret tt.

Definition deepgramWs_onmessage (u ws : nat) (eventData : Message) : M unit :=
  withUpstream u (fun up =>
    modify (with_upstreamSockets (fun l => <[u := count_message up]> l))) ;;
  try_catch (ServerWebSocket_send ws eventData) (mret tt).

Definition deepgramWs_onerror (ws : nat) : M unit :=
  try_catch (ServerWebSocket_close ws (Some 1011%Z) (Some "Deepgram connection error")) (mret tt).

Definition deepgramWs_onclose (ws : nat) (eventCode : Z) (eventReason : string) : M unit :=
  try_catch (ServerWebSocket_close ws (Some eventCode) (Some eventReason)) (mret tt).

(** *** [websocket.open(ws)] *)
Definition websocket_open (ws : nat) : M unit :=
  modify (with_activeConnections (Set_add ws)) ;;
  withSocket ws (fun s =>
    let params := queryParams (data s) in
    let deepgramUrl := buildDeepgramUrl params in
    u ← new_WebSocket deepgramUrl;
    modify (with_clientSockets (fun l => <[ws := set_deepgramWs (Some u) s]> l)) ;;
    addEventListeners u ws).

(** *** [websocket.message(ws, message)] *)
Definition websocket_message (ws : nat) (message : Message) : M unit :=
  withSocket ws (fun s =>
    let deepgramWs := deepgramWs (data s) in
    match deepgramWs with
    | Some u =>
        withUpstream u (fun up =>
          match readyState up with
          | OPEN => WebSocket_send u message
          | _ => mret tt
          end)
    | None => mret tt
    end).

(** *** HTTP *)

Inductive Body : Type :=
| NoBody
| TextBody (text : string)
| JsonBody (fields : list (string * string))
| JsonRaw (json : string).

Record Response : Type := {
  statusCode : Z;
  body : Body;
  headers : list (string * string)
}.

(** A request as [fetch] reads it: method, [new URL(req.url)], the
    [sec-websocket-protocol] header, and whether the request carries the
    WebSocket handshake that [server.upgrade] needs. *)
Record Request : Type := {
  method : string;
  pathname : string;
  urlSearchParams : URLSearchParams;
  secWebSocketProtocol : option string;
  handshake : bool
}.

Definition handleGetSession (now : Z) : Response :=
  let token := jwt_sign now SESSION_SECRET JWT_EXPIRY in
  {| statusCode := 200; body := JsonBody [("token", token)]; headers := getCorsHeaders |}.

Definition handleMetadata : Response :=
  match deepgram_toml with
  | TomlMeta meta =>
      {| statusCode := 200; body := JsonRaw meta; headers := getCorsHeaders |}
  | TomlNoMeta =>
      {| statusCode := 500;
         body := JsonBody [("error", "INTERNAL_SERVER_ERROR");
                           ("message", "Missing [meta] section in deepgram.toml")];
         headers := getCorsHeaders |}
  | TomlFailure =>
      {| statusCode := 500;
         body := JsonBody [("error", "INTERNAL_SERVER_ERROR");
                           ("message", "Failed to read metadata from deepgram.toml")];
         headers := getCorsHeaders |}
  end.

Definition handlePreflight : Response :=
  {| statusCode := 204; body := NoBody; headers := getCorsHeaders |}.

Definition handleHealth : Response :=
  {| statusCode := 200; body := JsonBody [("status", "ok")]; headers := getCorsHeaders |}.

(** [server.upgrade(req, { data, headers })]: [false] without a handshake;
    otherwise a new client socket with that data, on which the runtime
    calls [websocket.open]. *)
Definition server_upgrade (req : Request) (d : WsData) (proto : string) : M bool :=
  if handshake req then
    ws ← gets (fun w => length (clientSockets w));
    modify (with_clientSockets (fun l =>
      l ++ [{| data := d; protocol := proto; status := WsOpen |}])) ;;
    websocket_open ws ;;
    mret true
  else mret false.

(** [fetch(req, server)]: [None] is the [undefined] returned after an
    upgrade. *)
Definition fetch (now : Z) (req : Request) : M (option Response) :=
  if String.eqb (method req) "OPTIONS" then mret (Some handlePreflight)
  else if String.eqb (method req) "GET" && String.eqb (pathname req) "/api/session"
  then mret (Some (handleGetSession now))
  else if String.eqb (method req) "GET" && String.eqb (pathname req) "/api/metadata"
  then mret (Some handleMetadata)
  else if String.eqb (method req) "GET" && String.eqb (pathname req) "/health"
  then mret (Some handleHealth)
  else if String.eqb (pathname req) "/api/live-transcription" then
    let protocols := secWebSocketProtocol req in
    let validProto := validateWsToken now protocols in
    match whenTruthy validProto with
    | None =>
        mret (Some {| statusCode := 401; body := TextBody "Unauthorized";
                      headers := getCorsHeaders |})
    | Some validProto =>
        upgraded ← server_upgrade req
                     {| queryParams := urlSearchParams req; deepgramWs := None |}
                     validProto;
        if upgraded : bool then mret None
        else mret (Some {| statusCode := 400; body := TextBody "WebSocket upgrade failed";
                           headers := [] |})
    end
  else mret (Some {| statusCode := 404;
                     body := JsonBody [("error", "Not Found"); ("message", "Endpoint not found")];
                     headers := getCorsHeaders |}).

(** *** Shutdown *)

(** [set.forEach(f)] from the members [snapshot] onwards: a member deleted
    before its turn is skipped (the callback here never adds one). *)
Fixpoint Set_forEach (snapshot : list nat) (f : nat -> M unit) : M unit :=
  match snapshot with
  | [] => mret tt
  | x :: rest =>
      live ← gets activeConnections;
      (if Set_has x live then f x else mret tt) ;;
      Set_forEach rest f
  end.

(** [gracefulShutdown(signal)] *)
Definition gracefulShutdown (signal : string) : M unit :=
  members ← gets activeConnections;
  Set_forEach members (fun ws =>
    try_catch (ServerWebSocket_close ws None None) (mret tt)) ;;
  call ServerStop ;;
  modify (with_accepting false) ;;
  call (ProcessExit 0) ;;
  modify (with_exitStatus (Some 0%Z)).

Inductive ProcessEvent : Type := SIGTERM | SIGINT | uncaughtException | unhandledRejection.

(** The four [process.on(...)] handlers. *)
Definition process_on (e : ProcessEvent) : M unit :=
  match e with
  | SIGTERM => gracefulShutdown "SIGTERM"
  | SIGINT => gracefulShutdown "SIGINT"
  | uncaughtException => gracefulShutdown "UNCAUGHT_EXCEPTION"
  | unhandledRejection => gracefulShutdown "UNHANDLED_REJECTION"
  end.

(** *** The event loop *)

(** What the runtime can deliver to the program. *)
Inductive Event : Type :=
| EvRequest (now : Z) (req : Request)
| EvClientMessage (ws : nat) (message : Message)
| EvClientClose (ws : nat) (code : Z) (reason : string)
| EvUpstreamOpen (u : nat)
| EvUpstreamMessage (u : nat) (message : Message)
| EvUpstreamError (u : nat)
| EvUpstreamClose (u : nat) (code : Z) (reason : string)
| EvProcess (e : ProcessEvent).

(** The runtime's side of a client close event: a socket still open is now
    closed by its peer. *)
Definition peerClosed (ws : nat) (code : Z) (reason : string) : M unit :=
  withSocket ws (fun s =>
    match status s with
    | WsOpen => modify (with_clientSockets (fun l => <[ws := set_status (WsClosedByPeer code reason) s]> l))
    | _ => mret tt
    end).

(** The runtime's side of an upstream event: the socket's new state. *)
Definition upstreamBecomes (u : nat) (r : ReadyState) : M unit :=
  withUpstream u (fun up =>
    modify (with_upstreamSockets (fun l => <[u := set_readyState r up]> l))).

(** Run the listener of upstream socket [u], if [open] registered one. *)
Definition withListener (u : nat) (k : nat -> M unit) : M unit :=
  withUpstream u (fun up =>
    match listeners up with
    | Some ws => k ws
    | None => mret tt
    end).

Definition dispatch (e : Event) : M unit :=
  match e with
  | EvRequest now req =>
      accepts ← gets accepting;
      if accepts : bool then fetch now req ;; mret tt else mret tt
  | EvClientMessage ws message => websocket_message ws message
  | EvClientClose ws code reason =>
      peerClosed ws code reason ;; websocket_close ws code reason
  | EvUpstreamOpen u =>
      withUpstream u (fun up =>
        match readyState up with
        | CONNECTING => upstreamBecomes u OPEN ;; withListener u deepgramWs_onopen
        | _ => mret tt   (* only a connecting socket opens *)
        end)
  | EvUpstreamMessage u message =>
      withListener u (fun ws => deepgramWs_onmessage u ws message)
  | EvUpstreamError u => withListener u deepgramWs_onerror
  | EvUpstreamClose u code reason =>
      upstreamBecomes u CLOSED ;;
      withListener u (fun ws => deepgramWs_onclose ws code reason)
  | EvProcess e => process_on e
  end.

(** One turn of the event loop; nothing runs in a process that has exited. *)
Definition step (w : World) (e : Event) : World :=
  match exitStatus w with
  | Some _ => w
  | None => exec (dispatch e) w
  end.

Definition run (w : World) (events : list Event) : World :=
  List.fold_left step events w.

End Relay.

(** ** What the invariants of the relay look at *)

(** A computation keeps an observation [f] of the world when it leaves
    [f] as it found it. *)
Definition keeps {A B : Type} (f : World -> B) (m : M A) : Prop :=
  forall w, f (snd (m w)) = f w.

(** A computation preserves an invariant [I] of the world. *)
Definition preserves {A : Type} (I : World -> Prop) (m : M A) : Prop :=
  forall w, I w -> I (snd (m w)).

(** The [ws.data] of every client socket, and for every upstream socket
    the URL it connects to and the client socket its listeners hold. *)
Definition sessionData (w : World) : list WsData := data <$> clientSockets w.

Definition upstreamLinks (w : World) : list (string * option nat) :=
  (fun up => (url up, listeners up)) <$> upstreamSockets w.

Definition statuses (w : World) : list WsStatus := status <$> clientSockets w.

(** What the pairing of sessions depends on. *)
Definition sessionShape (w : World) : list WsData * list (string * option nat) :=
  (sessionData w, upstreamLinks w).

(** Sessions are paired when the i-th client socket refers to the i-th
    upstream socket, whose listeners hold that client socket and whose URL
    was built from that client's query parameters. *)
Definition pairedSessions `{Env} (w : World) : Prop :=
  length (sessionData w) = length (upstreamLinks w)
  /\ forall i d, sessionData w !! i = Some d ->
       deepgramWs d = Some i
       /\ upstreamLinks w !! i = Some (buildDeepgramUrl (queryParams d), Some i).

(** The registry is in order when it has no member twice, every member is
    a client socket of the world, every open client socket is a member,
    and, where the runtime runs [close] handlers at once, every member is
    open. *)
Definition registryOk `{Env} (w : World) : Prop :=
  List.NoDup (activeConnections w)
  /\ (forall ws, In ws (activeConnections w) -> (ws < length (statuses w))%nat)
  /\ (forall ws, statuses w !! ws = Some WsOpen -> In ws (activeConnections w))
  /\ (close_handler_sync = true ->
      forall ws, In ws (activeConnections w) -> statuses w !! ws = Some WsOpen).

(** How one step can change the registry and the sockets' statuses: not at
    all; one open socket closes and leaves the registry (or stays in it
    until its handler runs later); a socket that is not open leaves the
    registry; a new open socket is registered. *)
Definition registryEffect `{Env} (w w' : World) : Prop :=
  (statuses w' = statuses w /\ activeConnections w' = activeConnections w)
  \/ (exists ws st,
        statuses w !! ws = Some WsOpen /\ st <> WsOpen
        /\ statuses w' = <[ws := st]> (statuses w)
        /\ (activeConnections w' = Set_delete ws (activeConnections w)
            \/ (close_handler_sync = false /\ activeConnections w' = activeConnections w)))
  \/ (exists ws,
        statuses w !! ws <> Some WsOpen
        /\ statuses w' = statuses w
        /\ activeConnections w' = Set_delete ws (activeConnections w))
  \/ (statuses w' = statuses w ++ [WsOpen]
      /\ activeConnections w' = Set_add (length (statuses w)) (activeConnections w)).

(** What the order of the registry depends on. *)
Definition registryView (w : World) : list WsStatus * list nat :=
  (statuses w, activeConnections w).

(** ** A concrete environment, for the examples

    Tokens verify when they are the text [valid.jwt]; closing the client
    socket 1 throws. *)

Definition exampleEnv : Env := {|
  DEEPGRAM_API_KEY := "dg secret/key";
  SESSION_SECRET := "session-secret";
  jwt_verify := fun token _ _ => String.eqb token "valid.jwt";
  jwt_sign := fun _ _ _ => "valid.jwt";
  deepgram_toml := TomlNoMeta;
  ws_close_throws := fun ws => Nat.eqb ws 1;
  ws_send_throws := fun _ => false;
  close_handler_sync := true
|}.

(** An upgrade request for the live-transcription path presenting
    [header], and two worlds the examples start from: one session whose
    upstream socket is still connecting, and three sessions whose upstream
    sockets are open. *)
Definition exampleRequest (header : option string) : Request := {|
  method := "GET";
  pathname := "/api/live-transcription";
  urlSearchParams := [("model", "nova-2"); ("punctuate", "true")];
  secWebSocketProtocol := header;
  handshake := true
|}.

Definition exampleConnecting : World :=
  @run exampleEnv initialWorld
    [EvRequest 0 (exampleRequest (Some "access_token.valid.jwt"))].

Definition exampleSessions : World :=
  @run exampleEnv initialWorld
    [EvRequest 0 (exampleRequest (Some "access_token.valid.jwt"));
     EvRequest 1 (exampleRequest (Some "chat, access_token.valid.jwt"));
     EvRequest 2 (exampleRequest (Some "access_token.valid.jwt"));
     EvUpstreamOpen 0; EvUpstreamOpen 1; EvUpstreamOpen 2].

(** The same environment with every [close()] succeeding. *)
Definition quietEnv : Env := {|
  DEEPGRAM_API_KEY := "dg secret/key";
  SESSION_SECRET := "session-secret";
  jwt_verify := fun token _ _ => String.eqb token "valid.jwt";
  jwt_sign := fun _ _ _ => "valid.jwt";
  deepgram_toml := TomlNoMeta;
  ws_close_throws := fun _ => false;
  ws_send_throws := fun _ => false;
  close_handler_sync := true
|}.

(** * Verification *)

(** ** Strings *)

Module JsStringFacts.

Lemma startsWith_true (p s : string) :
  startsWith s p = true <-> exists v, s = p +:+ v.
Proof.
  revert s. induction p as [|a p IH]; intros s; simpl.
  - split; [intros _; exists s; reflexivity | reflexivity].
  - destruct s as [|b s].
    + split; [discriminate | intros [v Hv]; discriminate].
    + rewrite andb_true_iff, Ascii.eqb_eq, IH. split.
      * intros [-> [v ->]]. exists v. reflexivity.
      * intros [v Hv]. injection Hv as -> ->. eauto.
Qed.

Lemma startsWith_app (p v : string) : startsWith (p +:+ v) p = true.
Proof. apply startsWith_true. eauto. Qed.

Lemma slice_app (p v : string) : slice (String.length p) (p +:+ v) = v.
Proof. induction p as [|a p IH]; simpl; [destruct v|]; auto. Qed.

Lemma truthy_startsWith (s p : string) :
  truthy p = true -> startsWith s p = true -> truthy s = true.
Proof. destruct p, s; simpl; auto; discriminate. Qed.

(** [find] returns the first element that passes, whatever follows it. *)
Lemma find_first {A : Type} (f : A -> bool) (l : list A) (x : A) :
  List.find f l = Some x <->
  exists pre post, l = pre ++ x :: post /\ f x = true /\ Forall (fun e => f e = false) pre.
Proof.
  induction l as [|a l IH]; simpl.
  - split; [discriminate|]. intros (pre & post & Hl & _). destruct pre; discriminate.
  - destruct (f a) eqn:Ha.
    + split.
      * intros [= ->]. exists [], l. auto.
      * intros (pre & post & Hl & Hx & Hpre). destruct pre as [|b pre]; simpl in Hl.
        -- injection Hl as -> _. reflexivity.
        -- injection Hl as -> _. inversion Hpre; congruence.
    + rewrite IH. split.
      * intros (pre & post & -> & Hx & Hpre). exists (a :: pre), post. auto.
      * intros (pre & post & Hl & Hx & Hpre). destruct pre as [|b pre]; simpl in Hl.
        -- injection Hl as -> _. congruence.
        -- injection Hl as -> ->. inversion Hpre; eauto.
Qed.

Lemma find_nothing {A : Type} (f : A -> bool) (l : list A) :
  List.find f l = None <-> Forall (fun e => f e = false) l.
Proof.
  induction l as [|a l IH]; simpl.
  - split; auto.
  - destruct (f a) eqn:Ha.
    + split; [discriminate|]. inversion 1; congruence.
    + rewrite IH. split; [auto|]. inversion 1; auto.
Qed.

End JsStringFacts.

(** ** The token validator *)

Section TokenValidator.
Context `{Env}.
Import JsStringFacts.

Local Abbreviation entries h := (List.map trim (split "," h)).
Local Abbreviation candidate := (fun p : string => startsWith p "access_token.").

(** The validator on a header that is there: the first candidate entry
    decides, by the verification of what follows its prefix. *)
Lemma validateWsToken_header (now : Z) (h : string) :
  validateWsToken now (Some h) =
  match List.find candidate (entries h) with
  | Some p => if jwt_verify (slice 13 p) SESSION_SECRET now then Some p else None
  | None => None
  end.
Proof.
  destruct h as [|c h]; [reflexivity|].
  unfold validateWsToken. cbn [whenTruthy truthy].
  destruct (List.find candidate (entries (String c h))) as [p|] eqn:Hfind; [|reflexivity].
  apply find_first in Hfind as (_ & _ & _ & Hp & _).
  cbn [whenTruthy]. rewrite (truthy_startsWith p "access_token." eq_refl Hp).
  reflexivity.
Qed.

Lemma validateWsToken_accepts (now : Z) (h p : string) :
  validateWsToken now (Some h) = Some p <->
  exists pre post v,
    entries h = pre ++ p :: post
    /\ Forall (fun e => candidate e = false) pre
    /\ p = "access_token." +:+ v
    /\ jwt_verify v SESSION_SECRET now = true.
Proof.
  rewrite validateWsToken_header. split.
  - destruct (List.find candidate (entries h)) as [q|] eqn:Hfind; [|discriminate].
    destruct (jwt_verify (slice 13 q) SESSION_SECRET now) eqn:Hv; [|discriminate].
    intros [= ->].
    apply find_first in Hfind as (pre & post & Hl & Hp & Hpre).
    apply startsWith_true in Hp as [v ->].
    exists pre, post, v. repeat split; auto.
  - intros (pre & post & v & Hl & Hpre & -> & Hv).
    assert (Hfind : List.find candidate (entries h) = Some ("access_token." +:+ v)).
    { apply find_first. exists pre, post. repeat split; auto using startsWith_app. }
    rewrite Hfind. change 13%nat with (String.length "access_token.").
    rewrite slice_app, Hv. reflexivity.
Qed.

Lemma validateWsToken_rejects (now : Z) (protocols : option string) :
  validateWsToken now protocols = None <->
  protocols = None
  \/ (exists h, protocols = Some h /\ Forall (fun e => candidate e = false) (entries h))
  \/ (exists h pre post v,
        protocols = Some h
        /\ entries h = pre ++ ("access_token." +:+ v) :: post
        /\ Forall (fun e => candidate e = false) pre
        /\ jwt_verify v SESSION_SECRET now = false).
Proof.
  destruct protocols as [h|]; [|split; auto].
  rewrite validateWsToken_header. split.
  - destruct (List.find candidate (entries h)) as [q|] eqn:Hfind.
    + destruct (jwt_verify (slice 13 q) SESSION_SECRET now) eqn:Hv; [discriminate|].
      intros _. right. right.
      apply find_first in Hfind as (pre & post & Hl & Hp & Hpre).
      apply startsWith_true in Hp as [v ->].
      exists h, pre, post, v. repeat split; auto.
    + intros _. right. left. exists h. split; [reflexivity|].
      apply find_nothing. exact Hfind.
  - intros [Habs|[(h' & [= <-] & Hnone)|(h' & pre & post & v & [= <-] & Hl & Hpre & Hv)]].
    + discriminate.
    + apply find_nothing in Hnone. rewrite Hnone. reflexivity.
    + assert (Hfind : List.find candidate (entries h) = Some ("access_token." +:+ v)).
      { apply find_first. exists pre, post. repeat split; auto using startsWith_app. }
      rewrite Hfind. change 13%nat with (String.length "access_token.").
      rewrite slice_app, Hv. reflexivity.
Qed.

Lemma validateWsToken_ignores_rest (now : Z) (h1 h2 : string)
    (pre : list string) (p : string) (post1 post2 : list string) :
  entries h1 = pre ++ p :: post1 ->
  entries h2 = pre ++ p :: post2 ->
  Forall (fun e => candidate e = false) pre ->
  candidate p = true ->
  validateWsToken now (Some h1) = validateWsToken now (Some h2).
Proof.
  intros H1 H2 Hpre Hp. rewrite !validateWsToken_header.
  assert (F1 : List.find candidate (entries h1) = Some p)
    by (apply find_first; exists pre, post1; auto).
  assert (F2 : List.find candidate (entries h2) = Some p)
    by (apply find_first; exists pre, post2; auto).
  rewrite F1, F2. reflexivity.
Qed.

(** C8. The validator looks at one candidate only, the first entry of the
    comma-separated header that starts with [access_token.]: it returns
    that whole entry exactly when the text after the prefix verifies;
    a missing header, a header with no candidate, and a first candidate
    that fails verification all give the one failure value [None]; and
    whatever follows the first candidate has no influence on the result. *)
Theorem validateWsToken_first_candidate (now : Z) :
  (forall h p,
     validateWsToken now (Some h) = Some p <->
     exists pre post v,
       entries h = pre ++ p :: post
       /\ Forall (fun e => candidate e = false) pre
       /\ p = "access_token." +:+ v
       /\ jwt_verify v SESSION_SECRET now = true)
  /\ (forall protocols,
        validateWsToken now protocols = None <->
        protocols = None
        \/ (exists h, protocols = Some h /\ Forall (fun e => candidate e = false) (entries h))
        \/ (exists h pre post v,
              protocols = Some h
              /\ entries h = pre ++ ("access_token." +:+ v) :: post
              /\ Forall (fun e => candidate e = false) pre
              /\ jwt_verify v SESSION_SECRET now = false))
  /\ (forall h1 h2 pre p post1 post2,
        entries h1 = pre ++ p :: post1 ->
        entries h2 = pre ++ p :: post2 ->
        Forall (fun e => candidate e = false) pre ->
        candidate p = true ->
        validateWsToken now (Some h1) = validateWsToken now (Some h2)).
Proof.
  split; [|split].
  - apply validateWsToken_accepts.
  - apply validateWsToken_rejects.
  - apply validateWsToken_ignores_rest.
Qed.

End TokenValidator.

(** ** Query strings: what is serialised reads back unchanged *)

Module UrlSearchFacts.

Lemma append_assoc (a b c : string) : (a +:+ b) +:+ c = a +:+ b +:+ c.
Proof. induction a as [|x a IH]; simpl; [reflexivity | rewrite IH; reflexivity]. Qed.

Lemma append_empty_r (a : string) : a +:+ EmptyString = a.
Proof. induction a as [|x a IH]; simpl; [reflexivity | rewrite IH; reflexivity]. Qed.

Lemma includes_app (a b : string) (c : ascii) :
  includes (a +:+ b) c = includes a c || includes b c.
Proof.
  induction a as [|x a IH]; simpl; [reflexivity|].
  rewrite IH, orb_assoc. reflexivity.
Qed.

(** No encoded byte is a separator of the query syntax. *)
Lemma percentEncodeByte_plain (c : ascii) :
  includes (percentEncodeByte c) "&" = false /\ includes (percentEncodeByte c) "=" = false.
Proof. destruct c as [[] [] [] [] [] [] [] []]; split; reflexivity. Qed.

Lemma urlencode_plain (s : string) :
  includes (urlencode s) "&" = false /\ includes (urlencode s) "=" = false.
Proof.
  induction s as [|c s [IH1 IH2]]; simpl; [auto|].
  rewrite !includes_app, IH1, IH2.
  destruct (percentEncodeByte_plain c) as [-> ->]. auto.
Qed.

(** Decoding undoes the encoding of one byte, whatever follows. *)
Lemma urldecode_byte (c : ascii) (rest : string) :
  urldecode (percentEncodeByte c +:+ rest) = String c (urldecode rest).
Proof. destruct c as [[] [] [] [] [] [] [] []]; reflexivity. Qed.

Lemma urldecode_urlencode (s : string) : urldecode (urlencode s) = s.
Proof.
  induction s as [|c s IH]; simpl; [reflexivity|].
  rewrite urldecode_byte, IH. reflexivity.
Qed.

Lemma split_app (sep : ascii) (a b : string) :
  includes a sep = false -> split sep (a +:+ String sep b) = a :: split sep b.
Proof.
  induction a as [|x a IH]; simpl.
  - intros _. rewrite Ascii.eqb_refl. reflexivity.
  - intros Hx. apply orb_false_iff in Hx as [Hx Ha].
    rewrite Hx, (IH Ha). reflexivity.
Qed.

Lemma split_whole (sep : ascii) (a : string) :
  includes a sep = false -> split sep a = [a].
Proof.
  induction a as [|x a IH]; simpl; [reflexivity|].
  intros Hx. apply orb_false_iff in Hx as [Hx Ha].
  rewrite Hx, (IH Ha). reflexivity.
Qed.

Lemma cutAt_app (stop : ascii) (a b : string) :
  includes a stop = false -> cutAt stop (a +:+ String stop b) = (a, b).
Proof.
  induction a as [|x a IH]; simpl.
  - intros _. rewrite Ascii.eqb_refl. reflexivity.
  - intros Hx. apply orb_false_iff in Hx as [Hx Ha].
    rewrite Hx, (IH Ha). reflexivity.
Qed.

Lemma truthy_with_equals (a b : string) : truthy (a +:+ String "=" b) = true.
Proof. destruct a; reflexivity. Qed.

Lemma parsePair_encoded (k v : string) :
  parsePair (urlencode k +:+ String "=" (urlencode v)) = (k, v).
Proof.
  unfold parsePair. rewrite cutAt_app by apply urlencode_plain.
  rewrite !urldecode_urlencode. reflexivity.
Qed.

Lemma pair_plain (k v : string) :
  includes (urlencode k +:+ String "=" (urlencode v)) "&" = false.
Proof.
  rewrite includes_app. simpl.
  destruct (urlencode_plain k) as [-> _], (urlencode_plain v) as [-> _]. reflexivity.
Qed.

(** The parser inverts the serialiser on every list of pairs. *)
Theorem parse_serialize (params : URLSearchParams) : parse (serialize params) = params.
Proof.
  induction params as [|[k v] rest IH]; [reflexivity|].
  unfold parse in *. cbn [serialize].
  change (urlencode k +:+ "=" +:+ urlencode v +:+ ?t)
    with (urlencode k +:+ String "=" (urlencode v +:+ t)).
  destruct rest as [|p rest].
  - rewrite append_empty_r, split_whole by apply pair_plain.
    cbn [List.filter]. rewrite truthy_with_equals. cbn [List.map].
    rewrite parsePair_encoded. reflexivity.
  - replace (urlencode k +:+ String "=" (urlencode v +:+ "&" +:+ serialize (p :: rest)))
      with ((urlencode k +:+ String "=" (urlencode v)) +:+ String "&" (serialize (p :: rest)))
      by (rewrite append_assoc; reflexivity).
    rewrite split_app by apply pair_plain.
    cbn [List.filter]. rewrite truthy_with_equals. cbn [List.map].
    rewrite parsePair_encoded, IH. reflexivity.
Qed.

Lemma serialize_cons (p : string * string) (rest : URLSearchParams) :
  exists c s, serialize (p :: rest) = String c s.
Proof.
  destruct p as [k v]. cbn [serialize].
  destruct (urlencode k) as [|c s]; simpl; eauto.
Qed.

(** A URL with at least one parameter is written with a query, and reading
    that text back gives the same parameters. *)
Lemma toString_query (base : string) (p : string * string) (rest : URLSearchParams) :
  toString {| beforeQuery := base; UrlSearch.searchParams := p :: rest |}
  = base +:+ String "?" (serialize (p :: rest)).
Proof.
  unfold toString. cbn [beforeQuery UrlSearch.searchParams].
  destruct (serialize_cons p rest) as (c & s & ->). reflexivity.
Qed.

Lemma new_URL_toString (base : string) (p : string * string) (rest : URLSearchParams) :
  includes base "?" = false ->
  new_URL (toString {| beforeQuery := base; UrlSearch.searchParams := p :: rest |})
  = {| beforeQuery := base; UrlSearch.searchParams := p :: rest |}.
Proof.
  intros Hbase. rewrite toString_query. unfold new_URL.
  rewrite cutAt_app by exact Hbase. rewrite parse_serialize. reflexivity.
Qed.

End UrlSearchFacts.

(** ** The upstream URL builder *)

Section UrlBuilder.
Context `{Env}.
Import UrlSearchFacts.

(** The parameters the builder always sets, in the order it sets them. *)
Local Abbreviation requiredOf q :=
  [ ("token", DEEPGRAM_API_KEY);
    ("model", orElse (get q "model") "nova-3");
    ("language", orElse (get q "language") "en");
    ("encoding", orElse (get q "encoding") "linear16");
    ("sample_rate", orElse (get q "sample_rate") "16000");
    ("channels", orElse (get q "channels") "1");
    ("smart_format", orElse (get q "smart_format") "true") ].

(** A parameter that is passed on only when the client gave it. *)
Local Abbreviation optionalOf q name :=
  (match get q name with Some v => [(name%string, v)] | None => [] end).

(** The built URL, read back, carries exactly the required parameters and
    then those of the three optional ones that the client supplied. *)
Lemma buildDeepgramUrl_params (q : URLSearchParams) :
  urlParams (buildDeepgramUrl q) =
  requiredOf q ++ optionalOf q "punctuate" ++ optionalOf q "diarize"
  ++ optionalOf q "filler_words".
Proof.
  assert (Hbuilt : buildDeepgramUrl q =
    toString {| beforeQuery := "wss://api.deepgram.com/v1/listen";
                UrlSearch.searchParams :=
                  requiredOf q ++ optionalOf q "punctuate" ++ optionalOf q "diarize"
                  ++ optionalOf q "filler_words" |}).
  { unfold buildDeepgramUrl.
    destruct (get q "punctuate"), (get q "diarize"), (get q "filler_words"); reflexivity. }
  unfold urlParams. rewrite Hbuilt. cbn [app].
  rewrite new_URL_toString by reflexivity. reflexivity.
Qed.

Lemma orElse_cases (x : option string) (dflt : string) :
  (forall v, x = Some v -> v <> EmptyString -> orElse x dflt = v)
  /\ (x = Some EmptyString -> orElse x dflt = dflt)
  /\ (x = None -> orElse x dflt = dflt).
Proof.
  repeat split.
  - intros v -> Hv. destruct v; [congruence | reflexivity].
  - intros ->. reflexivity.
  - intros ->. reflexivity.
Qed.

(** C2, as the code has it. Each required transcription parameter of the
    built URL (model, language, encoding, sample_rate, channels,
    smart_format) is the client's value when the client gave a non-empty
    one, and the documented default when the option is absent or empty;
    for empty options the URL is the endpoint with the server's token and
    exactly the six defaults. *)
Theorem required_parameters_or_defaults (q : URLSearchParams) :
  Forall (fun nd : string * string =>
            let built := get (urlParams (buildDeepgramUrl q)) (fst nd) in
            (forall v, get q (fst nd) = Some v -> v <> EmptyString -> built = Some v)
            /\ (get q (fst nd) = Some EmptyString -> built = Some (snd nd))
            /\ (get q (fst nd) = None -> built = Some (snd nd)))
         [ ("model", "nova-3"); ("language", "en"); ("encoding", "linear16");
           ("sample_rate", "16000"); ("channels", "1"); ("smart_format", "true") ]
  /\ buildDeepgramUrl [] =
     "wss://api.deepgram.com/v1/listen?token=" +:+ urlencode DEEPGRAM_API_KEY +:+
     "&model=nova-3&language=en&encoding=linear16&sample_rate=16000&channels=1&smart_format=true".
Proof.
  split.
  - rewrite buildDeepgramUrl_params.
    repeat constructor; cbn [fst snd get app String.eqb Ascii.eqb Bool.eqb];
      intros; f_equal;
      first [ now apply (proj1 (orElse_cases _ _))
            | now apply (proj1 (proj2 (orElse_cases _ _)))
            | now apply (proj2 (proj2 (orElse_cases _ _))) ].
  - unfold buildDeepgramUrl, toString. cbn.
    destruct (urlencode DEEPGRAM_API_KEY); reflexivity.
Qed.

(** C3. A [punctuate], [diarize] or [filler_words] parameter is in the
    built URL exactly when the client supplied it, once, with the value the
    client gave, unchanged (empty included); with none of the three
    supplied, the URL has the seven fixed parameters and nothing else. *)
Theorem optional_parameters_passthrough (q : URLSearchParams) :
  let built := urlParams (buildDeepgramUrl q) in
  Forall (fun name : string =>
            get built name = get q name
            /\ List.filter (fun p => String.eqb (fst p) name) built
               = match get q name with Some v => [(name, v)] | None => [] end)
         [ "punctuate"; "diarize"; "filler_words" ]
  /\ (get q "punctuate" = None -> get q "diarize" = None -> get q "filler_words" = None ->
      List.map fst built
      = [ "token"; "model"; "language"; "encoding"; "sample_rate"; "channels"; "smart_format" ]).
Proof.
  cbv zeta. rewrite buildDeepgramUrl_params. split.
  - repeat constructor;
      destruct (get q "punctuate"), (get q "diarize"), (get q "filler_words"); reflexivity.
  - intros -> -> ->. reflexivity.
Qed.

(** The [token] parameter of the built URL is the server's upstream key,
    there once. *)
Lemma token_is_server_key (q : URLSearchParams) :
  get (urlParams (buildDeepgramUrl q)) "token" = Some DEEPGRAM_API_KEY
  /\ List.filter (fun p => String.eqb (fst p) "token") (urlParams (buildDeepgramUrl q))
     = [("token", DEEPGRAM_API_KEY)].
Proof.
  rewrite buildDeepgramUrl_params.
  destruct (get q "punctuate"), (get q "diarize"), (get q "filler_words"); split; reflexivity.
Qed.

Lemma get_In (q : URLSearchParams) (k v : string) : get q k = Some v -> In (k, v) q.
Proof.
  induction q as [|[k' v'] q IH]; cbn [get]; [discriminate|].
  destruct (String.eqb k' k) eqn:Hk.
  - apply String.eqb_eq in Hk. intros [= ->]. left. congruence.
  - intros Hget. right. exact (IH Hget).
Qed.

Lemma orElse_origin (q : URLSearchParams) (k dflt : string) :
  In (k, orElse (get q k) dflt) q \/ orElse (get q k) dflt = dflt.
Proof.
  unfold orElse. destruct (get q k) as [v|] eqn:Hget; [|right; reflexivity].
  destruct (truthy v); [left; exact (get_In q k v Hget) | right; reflexivity].
Qed.

(** Every parameter of the built URL is the server's token, one of the
    client's own query parameters, or one of the six fixed defaults. *)
Lemma built_parameters_origin (q : URLSearchParams) (k v : string) :
  In (k, v) (urlParams (buildDeepgramUrl q)) ->
  (k, v) = ("token", DEEPGRAM_API_KEY)
  \/ In (k, v) q
  \/ In (k, v) [ ("model", "nova-3"); ("language", "en"); ("encoding", "linear16");
                 ("sample_rate", "16000"); ("channels", "1"); ("smart_format", "true") ].
Proof.
  rewrite buildDeepgramUrl_params. intros Hin.
  apply in_app_or in Hin as [Hin|Hin].
  - cbn [In] in Hin.
    destruct Hin as [Heq|[Heq|[Heq|[Heq|[Heq|[Heq|[Heq|[]]]]]]]];
      [left; congruence|..]; right; injection Heq as <- <-;
      match goal with |- In (?n, orElse (get q ?n) ?d) q \/ _ =>
        destruct (orElse_origin q n d) as [Hq | ->]; [left; exact Hq | right; cbn [In]; tauto]
      end.
  - right. left.
    repeat (apply in_app_or in Hin as [Hin|Hin]);
      match type of Hin with
      | In _ (match get q ?n with _ => _ end) =>
          destruct (get q n) as [x|] eqn:Hget; [|destruct Hin];
          destruct Hin as [ [= <- <-] | [] ]; exact (get_In q n x Hget)
      end.
Qed.

End UrlBuilder.

(** C2, as the spec words it, fails: with [model] present and empty the
    client's value is the empty string, and the built URL carries the
    default instead. *)
Lemma empty_model_gets_default :
  get [("model", EmptyString)] "model" = Some EmptyString
  /\ get (urlParams (@buildDeepgramUrl exampleEnv [("model", EmptyString)])) "model"
     = Some "nova-3"
  /\ @buildDeepgramUrl exampleEnv [("model", EmptyString)]
     = "wss://api.deepgram.com/v1/listen?token=dg+secret%2Fkey&model=nova-3&language=en&encoding=linear16&sample_rate=16000&channels=1&smart_format=true".
Proof. repeat split; reflexivity. Qed.

(** ** The relay *)

Section RelayFacts.
Context `{Env}.

Ltac unfold_m :=
  unfold exec, withListener, upstreamBecomes, peerClosed, withSocket, withUpstream,
    call, modify, gets, throw, try_catch, mbind, M_bind, mret, M_ret in *.

(** Read a field through the record updates. *)
Ltac fields :=
  cbn [activeConnections clientSockets upstreamSockets accepting exitStatus calls
       with_activeConnections with_clientSockets with_upstreamSockets with_accepting
       with_exitStatus with_call] in *.

Lemma openUpstream_Some (w : World) (ws u : nat) (up : UpstreamWs) :
  openUpstream w ws = Some (u, up) <->
  exists s, clientSockets w !! ws = Some s /\ deepgramWs (data s) = Some u
            /\ upstreamSockets w !! u = Some up /\ readyState up = OPEN.
Proof.
  unfold openUpstream. split.
  - destruct (clientSockets w !! ws) as [s|] eqn:Hs; [|discriminate]. simpl.
    destruct (deepgramWs (data s)) as [u'|] eqn:Hu; [|discriminate]. simpl.
    destruct (upstreamSockets w !! u') as [up'|] eqn:Hup; [|discriminate]. simpl.
    destruct (readyState up') eqn:Hr; try discriminate.
    intros [= <- <-]. eauto.
  - intros (s & -> & Hu & Hup & Hr). simpl. rewrite Hu. simpl. rewrite Hup. simpl.
    rewrite Hr. reflexivity.
Qed.

Lemma openUpstream_None (w : World) (ws : nat) :
  openUpstream w ws = None <->
  forall s u up, clientSockets w !! ws = Some s -> deepgramWs (data s) = Some u ->
                 upstreamSockets w !! u = Some up -> readyState up <> OPEN.
Proof.
  split.
  - intros Hnone s u up Hs Hu Hup Hr.
    assert (Hsome : openUpstream w ws = Some (u, up)) by (apply openUpstream_Some; eauto).
    congruence.
  - intros Hall. destruct (openUpstream w ws) as [[u up]|] eqn:Hopen; [|reflexivity].
    apply openUpstream_Some in Hopen as (s & Hs & Hu & Hup & Hr).
    exfalso. eapply Hall; eauto.
Qed.

(** What [websocket.message] does, in one equation. *)
Lemma websocket_message_result (w : World) (ws : nat) (message : Message) :
  websocket_message ws message w =
  (Returned tt,
   match openUpstream w ws with
   | Some (u, _) => with_call (UpstreamSend u message) w
   | None => w
   end).
Proof.
  unfold websocket_message, openUpstream, WebSocket_send. unfold_m.
  destruct (clientSockets w !! ws) as [s|]; [|reflexivity]. simpl.
  destruct (deepgramWs (data s)) as [u|]; [|reflexivity]. simpl.
  destruct (upstreamSockets w !! u) as [up|] eqn:Hup; [|reflexivity]. simpl.
  destruct (readyState up) eqn:Hr; try reflexivity.
  rewrite Hup, Hr. reflexivity.
Qed.

(** What [websocket.close] does, in one equation. *)
Lemma websocket_close_result (w : World) (ws : nat) (code : Z) (reason : string) :
  websocket_close ws code reason w =
  (Returned tt,
   match openUpstream w ws with
   | Some (u, up) =>
       with_upstreamSockets (fun l => <[u := set_readyState CLOSING up]> l)
         (with_call (UpstreamClose u 1000 "Client disconnected")
            (with_activeConnections (Set_delete ws) w))
   | None => with_activeConnections (Set_delete ws) w
   end).
Proof.
  unfold websocket_close, openUpstream, WebSocket_close. unfold_m. simpl.
  destruct (clientSockets w !! ws) as [s|]; [|reflexivity]. simpl.
  destruct (deepgramWs (data s)) as [u|]; [|reflexivity]. simpl.
  destruct (upstreamSockets w !! u) as [up|] eqn:Hup; [|reflexivity]. simpl.
  destruct (readyState up) eqn:Hr; try reflexivity.
  fields. rewrite Hup, Hr. reflexivity.
Qed.

(** The runtime's bookkeeping at a client close event touches the status of
    that one socket and nothing else. *)
Lemma peerClosed_result (w : World) (ws : nat) (code : Z) (reason : string) :
  exists w1,
    peerClosed ws code reason w = (Returned tt, w1)
    /\ openUpstream w1 ws = openUpstream w ws
    /\ activeConnections w1 = activeConnections w
    /\ upstreamSockets w1 = upstreamSockets w
    /\ calls w1 = calls w
    /\ exitStatus w1 = exitStatus w.
Proof.
  unfold peerClosed. unfold_m.
  destruct (clientSockets w !! ws) as [s|] eqn:Hs; [|eauto 10].
  destruct (status s); eauto 10.
  eexists. split; [reflexivity|]. repeat split.
  unfold openUpstream. fields.
  rewrite list_lookup_insert_eq by (eapply lookup_lt_Some; eauto).
  rewrite Hs. reflexivity.
Qed.

Lemma Set_delete_In (x y : nat) (s : list nat) :
  In y (Set_delete x s) <-> In y s /\ y <> x.
Proof.
  unfold Set_delete. rewrite filter_In, negb_true_iff, Nat.eqb_neq.
  intuition congruence.
Qed.

(** C7. A client message is handed to the upstream socket exactly when the
    client socket has an upstream handle and that socket is open; in every
    other case (no handle, still connecting, closing, closed) the handler
    returns with the world as it was: nothing is sent and nothing is kept,
    so the rest of the run is the run without that message. *)
Theorem client_message_forwarded_iff_upstream_open
    (w : World) (ws : nat) (message : Message) :
  (forall u up, openUpstream w ws = Some (u, up) ->
     websocket_message ws message w = (Returned tt, with_call (UpstreamSend u message) w))
  /\ (openUpstream w ws = None ->
      websocket_message ws message w = (Returned tt, w)
      /\ forall later, run w (EvClientMessage ws message :: later) = run w later)
  /\ (openUpstream w ws = None <->
      forall s u up, clientSockets w !! ws = Some s -> deepgramWs (data s) = Some u ->
                     upstreamSockets w !! u = Some up -> readyState up <> OPEN)
  /\ ((exists u, calls (exec (websocket_message ws message) w)
                 = calls w ++ [UpstreamSend u message])
      <-> exists u up, openUpstream w ws = Some (u, up)).
Proof.
  repeat split.
  - intros u up Hopen. rewrite websocket_message_result, Hopen. reflexivity.
  - rewrite websocket_message_result, H0. reflexivity.
  - intros later. cbn [run List.fold_left]. f_equal.
    unfold step. destruct (exitStatus w); [reflexivity|].
    cbn [dispatch]. unfold exec. rewrite websocket_message_result, H0. reflexivity.
  - apply openUpstream_None.
  - apply openUpstream_None.
  - intros [u Hcalls]. unfold exec in Hcalls. rewrite websocket_message_result in Hcalls.
    destruct (openUpstream w ws) as [[u' up]|]; [eauto|].
    cbn [snd] in Hcalls. apply (f_equal (@length Call)) in Hcalls.
    rewrite length_app in Hcalls. cbn [length] in Hcalls. lia.
  - intros (u & up & Hopen). exists u. unfold exec.
    rewrite websocket_message_result, Hopen. reflexivity.
Qed.

(** C6. The [close] handler of a client socket takes the socket out of the
    registry, leaves the other members in, and, when the paired upstream
    socket is open, closes it with code 1000 and the fixed reason
    [Client disconnected]; the same holds for the whole turn of the event
    loop that a client close event starts. *)
Theorem client_close_deregisters_and_closes_upstream
    (w : World) (ws : nat) (code : Z) (reason : string) :
  let w' := exec (websocket_close ws code reason) w in
  let w'' := step w (EvClientClose ws code reason) in
  fst (websocket_close ws code reason w) = Returned tt
  /\ ~ In ws (activeConnections w')
  /\ (forall x, x <> ws -> (In x (activeConnections w') <-> In x (activeConnections w)))
  /\ (forall u up, openUpstream w ws = Some (u, up) ->
        calls w' = calls w ++ [UpstreamClose u 1000 "Client disconnected"]
        /\ upstreamSockets w' !! u = Some (set_readyState CLOSING up))
  /\ (exitStatus w = None ->
      ~ In ws (activeConnections w'')
      /\ forall u up, openUpstream w ws = Some (u, up) ->
           calls w'' = calls w ++ [UpstreamClose u 1000 "Client disconnected"]
           /\ upstreamSockets w'' !! u = Some (set_readyState CLOSING up)).
Proof.
  cbv zeta. unfold exec. rewrite websocket_close_result. cbn [fst snd].
  assert (Hreg : forall w0,
    activeConnections
      match openUpstream w0 ws with
      | Some (u, up) =>
          with_upstreamSockets (fun l => <[u := set_readyState CLOSING up]> l)
            (with_call (UpstreamClose u 1000 "Client disconnected")
               (with_activeConnections (Set_delete ws) w0))
      | None => with_activeConnections (Set_delete ws) w0
      end = Set_delete ws (activeConnections w0)).
  { intros w0. destruct (openUpstream w0 ws) as [[u up]|]; reflexivity. }
  split; [reflexivity|]. split; [|split; [|split]].
  - rewrite Hreg, Set_delete_In. tauto.
  - intros x Hx. rewrite Hreg, Set_delete_In. tauto.
  - intros u up Hopen. rewrite Hopen. fields. split; [reflexivity|].
    apply openUpstream_Some in Hopen as (s & _ & _ & Hup & _).
    apply list_lookup_insert_eq. eapply lookup_lt_Some; eauto.
  - intros Halive. unfold step. rewrite Halive. cbn [dispatch]. unfold exec, mbind, M_bind.
    destruct (peerClosed_result w ws code reason)
      as (w1 & -> & Hopen1 & Hreg1 & Hup1 & Hcalls1 & _).
    rewrite websocket_close_result. cbn [snd]. split.
    + rewrite Hreg, Set_delete_In. tauto.
    + intros u up Hopen. rewrite Hopen1, Hopen. fields. rewrite Hcalls1, Hup1.
      split; [reflexivity|].
      apply openUpstream_Some in Hopen as (s & _ & _ & Hup & _).
      apply list_lookup_insert_eq. eapply lookup_lt_Some; eauto.
Qed.

(** C10. When the client socket closes while its upstream socket is still
    connecting, the [close] handler only takes the client out of the
    registry: no call is made on the upstream socket and its state stays
    as it is, so the connection attempt goes on; if it then succeeds the
    upstream socket is open, and still no close has been sent to it. *)
Theorem client_close_leaves_connecting_upstream
    (w : World) (ws : nat) (code : Z) (reason : string)
    (s : ServerWebSocket) (u : nat) (up : UpstreamWs) :
  clientSockets w !! ws = Some s ->
  deepgramWs (data s) = Some u ->
  upstreamSockets w !! u = Some up ->
  readyState up = CONNECTING ->
  websocket_close ws code reason w
  = (Returned tt, with_activeConnections (Set_delete ws) w)
  /\ (exitStatus w = None ->
      let w1 := step w (EvClientClose ws code reason) in
      calls w1 = calls w
      /\ upstreamSockets w1 = upstreamSockets w
      /\ let w2 := step w1 (EvUpstreamOpen u) in
         calls w2 = calls w
         /\ upstreamSockets w2 !! u = Some (set_readyState OPEN up)).
Proof.
  intros Hs Hu Hup Hr.
  assert (Hnone : openUpstream w ws = None).
  { apply openUpstream_None. intros s' u' up' Hs' Hu' Hup' Hr'. congruence. }
  split.
  - rewrite websocket_close_result, Hnone. reflexivity.
  - intros Halive.
    destruct (peerClosed_result w ws code reason)
      as (w1 & Hpc & Hopen1 & Hreg1 & Hup1 & Hcalls1 & Hexit1).
    assert (Hstep1 : step w (EvClientClose ws code reason)
                     = with_activeConnections (Set_delete ws) w1).
    { unfold step. rewrite Halive. cbn [dispatch]. unfold exec, mbind, M_bind.
      rewrite Hpc, websocket_close_result, Hopen1, Hnone. reflexivity. }
    cbv zeta. rewrite Hstep1. fields. split; [exact Hcalls1|]. split; [exact Hup1|].
    unfold step. fields. rewrite Hexit1, Halive. cbn [dispatch]. unfold_m. fields.
    rewrite Hup1, Hup, Hr. fields. rewrite Hup1, Hup. fields.
    assert (Hlt : (u < length (upstreamSockets w))%nat) by (eapply lookup_lt_Some; eauto).
    rewrite Hup1, list_lookup_insert_eq by exact Hlt.
    destruct (listeners (set_readyState OPEN up));
      unfold deepgramWs_onopen, mret, M_ret; cbn [snd]; fields;
      (split; [exact Hcalls1 | rewrite Hup1; apply list_lookup_insert_eq; exact Hlt]).
Qed.

(** *** Closing a client socket from the relay *)

Lemma substring_all (n : nat) (s : string) :
  (String.length s <= n)%nat -> String.substring 0 n s = s.
Proof.
  revert n. induction s as [|a s IH]; intros n Hlen; [destruct n; reflexivity|].
  destruct n as [|n]; cbn [String.length] in Hlen; [lia|].
  cbn [String.substring]. rewrite IH by lia. reflexivity.
Qed.

(** A code that may be sent goes out as it is, with a reason that fits. *)
Lemma closeFrame_valid (c : Z) (r : string) :
  validCloseCode c = true -> (String.length r <= 123)%nat ->
  closeFrame (Some c) (Some r) = WsClosedByServer (Some c) (Some r).
Proof.
  intros Hvalid Hlen. unfold closeFrame. cbn [option_map].
  rewrite (substring_all 123 r Hlen).
  destruct (Z.eqb_spec c 0) as [->|_]; [discriminate|].
  destruct (Z.eqb_spec c 1005) as [->|_]; [discriminate|].
  destruct (Z.eqb_spec c 1006) as [->|_]; [discriminate|].
  reflexivity.
Qed.

Lemma closeFrame_closed (code : option Z) (reason : option string) :
  closeFrame code reason <> WsOpen.
Proof.
  unfold closeFrame. destruct code as [c|]; [|discriminate].
  destruct ((c =? 0)%Z || (c =? 1005)%Z || (c =? 1006)%Z); discriminate.
Qed.

(** [try { ws.close(code, reason) } catch {}] always returns. It makes that
    one call on the client socket; when the runtime runs the [close]
    handler at once, the handler may close the paired upstream socket. *)
Lemma closeClient_result (w : World) (ws : nat) (code : option Z) (reason : option string) :
  exists w',
    try_catch (ServerWebSocket_close ws code reason) (mret tt) w = (Returned tt, w')
    /\ (exists extra,
          calls w' = calls w ++ WsClose ws code reason :: extra
          /\ (extra = [] \/ exists u, extra = [UpstreamClose u 1000 "Client disconnected"]))
    /\ accepting w' = accepting w
    /\ exitStatus w' = exitStatus w
    /\ length (upstreamSockets w') = length (upstreamSockets w)
    /\ (forall x, x <> ws -> clientSockets w' !! x = clientSockets w !! x)
    /\ (activeConnections w' = activeConnections w
        \/ activeConnections w' = Set_delete ws (activeConnections w))
    /\ (ws_close_throws ws = true -> activeConnections w' = activeConnections w)
    /\ (ws_close_throws ws = false ->
        forall s, clientSockets w !! ws = Some s -> status s = WsOpen ->
          clientSockets w' !! ws = Some (set_status (closeFrame code reason) s)
          /\ (close_handler_sync = true ->
              activeConnections w' = Set_delete ws (activeConnections w))).
Proof.
  assert (Hlt : forall s, clientSockets w !! ws = Some s -> (ws < length (clientSockets w))%nat)
    by (intros s Hs; eapply lookup_lt_Some; eauto).
  unfold ServerWebSocket_close. unfold_m. fields.
  destruct (ws_close_throws ws) eqn:Hthrows; fields;
    [|destruct (clientSockets w !! ws) as [s|] eqn:Hs; fields;
      [destruct (status s) eqn:Hst; fields;
       [destruct close_handler_sync eqn:Hsync; fields;
        [rewrite websocket_close_result;
         match goal with |- context [openUpstream ?w0 ws] =>
           destruct (openUpstream w0 ws) as [[u up]|] end|]|..]|]];
    (eexists; split; [reflexivity|]); fields;
    repeat split; eauto;
    first [ discriminate
          | congruence
          | rewrite length_insert; reflexivity
          | intros x Hx; apply list_lookup_insert_ne; congruence
          | simplify_eq; apply list_lookup_insert_eq; eauto
          | eexists; split; [rewrite <- ?app_assoc; reflexivity | eauto] ].
Qed.

(** C5, as the code has it. When the upstream socket reports its close
    with code [c] and reason [r], the relay calls [close] on the client
    socket with that same code and reason, and makes no other close call on
    any client socket during that turn: it puts in no code of its own. A
    client socket that was open, and whose [close] does not throw, is then
    closed with exactly [c] and [r] when [c] is a code that a close frame
    may carry and [r] has at most 123 bytes. The codes 1005 and 1006, which
    an upstream close has when it came without a status or without a
    frame, do not reach the client: it is closed without a status, that
    is with 1005 and an empty reason. *)
Theorem upstream_close_propagated_verbatim
    (w : World) (u ws : nat) (up : UpstreamWs) (c : Z) (r : string) :
  exitStatus w = None ->
  upstreamSockets w !! u = Some up ->
  listeners up = Some ws ->
  let w' := step w (EvUpstreamClose u c r) in
  (exists extra,
     calls w' = calls w ++ WsClose ws (Some c) (Some r) :: extra
     /\ forall ws' c' r', ~ In (WsClose ws' c' r') extra)
  /\ (ws_close_throws ws = false ->
      forall s, clientSockets w !! ws = Some s -> status s = WsOpen ->
        exists s', clientSockets w' !! ws = Some s'
                   /\ (validCloseCode c = true -> (String.length r <= 123)%nat ->
                       status s' = WsClosedByServer (Some c) (Some r))
                   /\ (c = 1005%Z \/ c = 1006%Z ->
                       status s' = WsClosedByServer (Some 1005%Z) (Some EmptyString))).
Proof.
  intros Halive Hup Hl. cbv zeta. unfold step. rewrite Halive. cbn [dispatch].
  unfold deepgramWs_onclose.
  assert (Hlt : (u < length (upstreamSockets w))%nat) by (eapply lookup_lt_Some; eauto).
  unfold exec, withListener, upstreamBecomes, withUpstream, mbind, M_bind, gets, modify.
  rewrite Hup. fields. rewrite list_lookup_insert_eq by exact Hlt.
  cbn [listeners set_readyState]. rewrite Hl.
  match goal with |- context [try_catch _ _ ?w0] =>
    destruct (closeClient_result w0 ws (Some c) (Some r))
      as (w' & -> & (extra & Hcalls & Hextra) & _ & _ & _ & _ & _ & _ & Hopen)
  end.
  cbn [snd]. fields. split.
  - exists extra. split; [exact Hcalls|].
    intros ws' c' r' Hin. destruct Hextra as [->|[u' ->]]; [destruct Hin|].
    destruct Hin as [Hin|[]]. discriminate.
  - intros Hthrows s Hs Hst. destruct (Hopen Hthrows s Hs Hst) as [Hs' _].
    eexists. split; [exact Hs'|]. cbn [status set_status]. split.
    + intros Hvalid Hlen. apply closeFrame_valid; assumption.
    + intros [-> | ->]; reflexivity.
Qed.

(** *** Where upstream connections come from *)

Lemma connections_with_call (c : Call) (w : World) :
  connectionsInitiated (with_call c w) =
  connectionsInitiated w ++ match c with NewWebSocket u href => [(u, href)] | _ => [] end.
Proof.
  unfold connectionsInitiated. fields. rewrite flat_map_app. cbn [flat_map].
  rewrite app_nil_r. reflexivity.
Qed.

Lemma quiet_ret {A : Type} (a : A) : quiet (mret a).
Proof. intros w. reflexivity. Qed.

Lemma quiet_throw {A : Type} : quiet (@throw A).
Proof. intros w. reflexivity. Qed.

Lemma quiet_gets {A : Type} (f : World -> A) : quiet (gets f).
Proof. intros w. reflexivity. Qed.

Lemma quiet_bind {A B : Type} (m : M A) (k : A -> M B) :
  quiet m -> (forall a, quiet (k a)) -> quiet (m ≫= k).
Proof.
  intros Hm Hk w. unfold mbind, M_bind. specialize (Hm w).
  destruct (m w) as [[a|] w1]; cbn [snd] in *; [rewrite Hk|]; exact Hm.
Qed.

Lemma quiet_try_catch (body handler : M unit) :
  quiet body -> quiet handler -> quiet (try_catch body handler).
Proof.
  intros Hb Hh w. unfold try_catch. specialize (Hb w).
  destruct (body w) as [[a|] w1]; cbn [snd] in *; [|rewrite Hh]; exact Hb.
Qed.

Lemma quiet_modify (g : World -> World) :
  (forall w, calls (g w) = calls w) -> quiet (modify g).
Proof. intros Hg w. unfold modify, connectionsInitiated. cbn [snd]. rewrite Hg. reflexivity. Qed.

Lemma quiet_call (c : Call) :
  match c with NewWebSocket _ _ => False | _ => True end -> quiet (call c).
Proof.
  intros Hc w. unfold call, modify. cbn [snd]. rewrite connections_with_call.
  destruct c; try (apply app_nil_r). destruct Hc.
Qed.

Lemma quiet_withSocket (ws : nat) (k : ServerWebSocket -> M unit) :
  (forall s, quiet (k s)) -> quiet (withSocket ws k).
Proof.
  intros Hk. apply quiet_bind; [apply quiet_gets|].
  intros [s|]; [apply Hk | apply quiet_ret].
Qed.

Lemma quiet_withUpstream (u : nat) (k : UpstreamWs -> M unit) :
  (forall up, quiet (k up)) -> quiet (withUpstream u k).
Proof.
  intros Hk. apply quiet_bind; [apply quiet_gets|].
  intros [up|]; [apply Hk | apply quiet_ret].
Qed.

(** Break a computation down to calls and updates that are plainly quiet. *)
Ltac quiet_steps :=
  repeat first
    [ apply quiet_ret | apply quiet_throw | apply quiet_gets
    | apply quiet_bind; [|intros ?]
    | apply quiet_try_catch
    | apply quiet_withSocket; intros ?
    | apply quiet_withUpstream; intros ?
    | apply quiet_modify; intros ?; reflexivity
    | apply quiet_call; exact I
    | progress cbv zeta
    | match goal with
      | |- quiet (match ?x with _ => _ end) => destruct x
      | |- quiet (if ?b then _ else _) => destruct b
      end ].

Lemma quiet_WebSocket_send (u : nat) (message : Message) : quiet (WebSocket_send u message).
Proof. unfold WebSocket_send. quiet_steps. Qed.

Lemma quiet_WebSocket_close (u : nat) (code : Z) (reason : string) :
  quiet (WebSocket_close u code reason).
Proof. unfold WebSocket_close. quiet_steps. Qed.

Lemma quiet_websocket_close (ws : nat) (code : Z) (reason : string) :
  quiet (websocket_close ws code reason).
Proof. unfold websocket_close. quiet_steps; auto using quiet_WebSocket_close. Qed.

Lemma quiet_websocket_message (ws : nat) (message : Message) :
  quiet (websocket_message ws message).
Proof. unfold websocket_message. quiet_steps; auto using quiet_WebSocket_send. Qed.

Lemma quiet_ServerWebSocket_close (ws : nat) (code : option Z) (reason : option string) :
  quiet (ServerWebSocket_close ws code reason).
Proof. unfold ServerWebSocket_close. quiet_steps; auto using quiet_websocket_close. Qed.

Lemma quiet_ServerWebSocket_send (ws : nat) (message : Message) :
  quiet (ServerWebSocket_send ws message).
Proof. unfold ServerWebSocket_send. quiet_steps. Qed.

Lemma quiet_Set_forEach (snapshot : list nat) (f : nat -> M unit) :
  (forall x, quiet (f x)) -> quiet (Set_forEach snapshot f).
Proof.
  intros Hf. induction snapshot as [|x rest IH]; cbn [Set_forEach]; quiet_steps; auto.
Qed.

Lemma quiet_gracefulShutdown (signal : string) : quiet (gracefulShutdown signal).
Proof.
  unfold gracefulShutdown. quiet_steps.
  apply quiet_Set_forEach. intros x. quiet_steps; auto using quiet_ServerWebSocket_close.
Qed.

Lemma insert_last {A : Type} (l : list A) (x y : A) :
  <[length l := y]> (l ++ [x]) = l ++ [y].
Proof. induction l as [|a l IH]; simpl; [reflexivity | f_equal; exact IH]. Qed.

Lemma lookup_last {A : Type} (l : list A) (x : A) : (l ++ [x]) !! length l = Some x.
Proof. apply list_lookup_middle. reflexivity. Qed.

(** An accepted upgrade creates one session: a client socket, registered,
    and its own upstream socket, connecting to the URL built from the
    request's query parameters. *)
Lemma server_upgrade_accepted (req : Request) (d : WsData) (proto : string) (w : World) :
  handshake req = true ->
  exists w',
    server_upgrade req d proto w = (Returned true, w')
    /\ calls w' = calls w ++ [NewWebSocket (length (upstreamSockets w))
                                          (buildDeepgramUrl (queryParams d))]
    /\ upstreamSockets w' =
       upstreamSockets w ++
       [{| url := buildDeepgramUrl (queryParams d); readyState := CONNECTING;
           listeners := Some (length (clientSockets w)); deepgramMessageCount := 0 |}]
    /\ clientSockets w' =
       clientSockets w ++
       [{| data := {| queryParams := queryParams d;
                      deepgramWs := Some (length (upstreamSockets w)) |};
           protocol := proto; status := WsOpen |}]
    /\ activeConnections w' = Set_add (length (clientSockets w)) (activeConnections w)
    /\ accepting w' = accepting w
    /\ exitStatus w' = exitStatus w.
Proof.
  intros Hhs. unfold server_upgrade. rewrite Hhs.
  unfold websocket_open, new_WebSocket, addEventListeners. unfold_m. fields.
  rewrite lookup_last. fields. rewrite lookup_last.
  eexists. split; [reflexivity|]. fields.
  rewrite !insert_last. repeat split.
Qed.

(** [fetch] either answers with a response and leaves the world alone, or
    it is on the live-transcription path with a handshake and a token that
    validated, and what it does is the upgrade. *)
Lemma fetch_cases (now : Z) (req : Request) (w : World) :
  (exists r, fetch now req w = (Returned (Some r), w))
  \/ (exists p,
        pathname req = "/api/live-transcription"
        /\ handshake req = true
        /\ validateWsToken now (secWebSocketProtocol req) = Some p
        /\ fetch now req w =
           (Returned None,
            snd (server_upgrade req
                   {| queryParams := urlSearchParams req; deepgramWs := None |} p w))).
Proof.
  unfold fetch.
  destruct (String.eqb (method req) "OPTIONS"); [left; eauto|].
  destruct (String.eqb (method req) "GET" && String.eqb (pathname req) "/api/session");
    [left; eauto|].
  destruct (String.eqb (method req) "GET" && String.eqb (pathname req) "/api/metadata");
    [left; eauto|].
  destruct (String.eqb (method req) "GET" && String.eqb (pathname req) "/health");
    [left; eauto|].
  destruct (String.eqb (pathname req) "/api/live-transcription") eqn:Hpath; [|left; eauto].
  apply String.eqb_eq in Hpath.
  destruct (validateWsToken now (secWebSocketProtocol req)) as [p|] eqn:Hvalid;
    cbn [whenTruthy]; [|left; eauto].
  destruct (truthy p); [|left; eauto].
  destruct (handshake req) eqn:Hhs.
  - right. exists p. repeat split; auto.
    destruct (server_upgrade_accepted req
                {| queryParams := urlSearchParams req; deepgramWs := None |} p w Hhs)
      as (w' & Hup & _).
    unfold mbind, M_bind. rewrite Hup. reflexivity.
  - left. unfold server_upgrade, mbind, M_bind. rewrite Hhs. eauto.
Qed.

Lemma fetch_unauthorized (now : Z) (req : Request) (w : World) :
  pathname req = "/api/live-transcription" ->
  method req <> "OPTIONS" ->
  validateWsToken now (secWebSocketProtocol req) = None ->
  fetch now req w =
  (Returned (Some {| statusCode := 401; body := TextBody "Unauthorized";
                     headers := getCorsHeaders |}), w).
Proof.
  intros Hpath Hmethod Hvalid. unfold fetch.
  apply String.eqb_neq in Hmethod. rewrite Hmethod, Hpath, Hvalid.
  cbn [String.eqb Ascii.eqb Bool.eqb whenTruthy]. rewrite !andb_false_r. reflexivity.
Qed.

(** One turn of the event loop initiates an upstream connection only when
    it is an upgrade request whose token validated; the connection then
    goes to the URL built from that request's query parameters. *)
Lemma step_connections (w : World) (e : Event) :
  connectionsInitiated (step w e) = connectionsInitiated w
  \/ exists now req p,
       e = EvRequest now req
       /\ pathname req = "/api/live-transcription"
       /\ handshake req = true
       /\ validateWsToken now (secWebSocketProtocol req) = Some p
       /\ connectionsInitiated (step w e) =
          connectionsInitiated w ++
          [(length (upstreamSockets w), buildDeepgramUrl (urlSearchParams req))].
Proof.
  unfold step. destruct (exitStatus w); [left; reflexivity|].
  destruct e as [now req| | | | | | |pe]; cbn [dispatch];
    try solve [ left; apply (fun m (Hq : quiet m) => Hq w); unfold_m; quiet_steps;
                auto using quiet_websocket_message, quiet_websocket_close,
                  quiet_ServerWebSocket_send, quiet_ServerWebSocket_close ].
  - unfold exec, mbind, M_bind, gets. destruct (accepting w); [|left; reflexivity].
    destruct (fetch_cases now req w) as [[r ->]|(p & Hpath & Hhs & Hvalid & ->)];
      [left; reflexivity|].
    right. exists now, req, p. repeat split; auto.
    destruct (server_upgrade_accepted req
                {| queryParams := urlSearchParams req; deepgramWs := None |} p w Hhs)
      as (w' & -> & Hcalls & _).
    cbn [snd mret M_ret]. unfold connectionsInitiated. rewrite Hcalls, flat_map_app.
    reflexivity.
  - left. apply (fun m (Hq : quiet m) => Hq w). destruct pe; apply quiet_gracefulShutdown.
Qed.

(** The world [fetch] leaves, by the request's method, path, handshake and
    the validator's verdict. *)
Lemma fetch_world (now : Z) (req : Request) (w : World) :
  snd (fetch now req w) =
  match validateWsToken now (secWebSocketProtocol req) with
  | Some p =>
      if negb (String.eqb (method req) "OPTIONS")
         && String.eqb (pathname req) "/api/live-transcription"
         && handshake req
      then snd (server_upgrade req
                  {| queryParams := urlSearchParams req; deepgramWs := None |} p w)
      else w
  | None => w
  end.
Proof.
  destruct (fetch_cases now req w) as [[r Hr]|(p & Hpath & Hhs & Hvalid & Hf)].
  - rewrite Hr. cbn [snd].
    destruct (validateWsToken now (secWebSocketProtocol req)) as [p|] eqn:Hvalid;
      [|reflexivity].
    destruct (negb (String.eqb (method req) "OPTIONS")
              && String.eqb (pathname req) "/api/live-transcription"
              && handshake req) eqn:Hcond; [|reflexivity].
    apply andb_true_iff in Hcond as [Hcond Hhs].
    apply andb_true_iff in Hcond as [Hmethod Hpath].
    apply negb_true_iff in Hmethod. apply String.eqb_eq in Hpath.
    exfalso. revert Hr. unfold fetch.
    rewrite Hmethod, Hpath, Hvalid.
    cbn [String.eqb Ascii.eqb Bool.eqb whenTruthy]. rewrite !andb_false_r.
    assert (Hp : truthy p = true).
    { destruct (secWebSocketProtocol req) as [h|]; [|discriminate].
      apply validateWsToken_accepts in Hvalid as (_ & _ & v & _ & _ & -> & _).
      reflexivity. }
    rewrite Hp.
    destruct (server_upgrade_accepted req
                {| queryParams := urlSearchParams req; deepgramWs := None |} p w Hhs)
      as (w' & Hup & _).
    unfold mbind, M_bind. rewrite Hup. discriminate.
  - rewrite Hf, Hvalid, Hpath, Hhs. cbn [snd].
    destruct (String.eqb (method req) "OPTIONS") eqn:Hmethod; [|reflexivity].
    exfalso. revert Hf. unfold fetch. rewrite Hmethod. discriminate.
Qed.

(** C1. An upgrade request for the live-transcription path whose
    negotiation header is missing, has no [access_token.] entry, or whose
    first such entry fails verification is answered with status 401; that
    turn leaves the world as it was, so no session and no upstream socket
    exist for it. More generally a turn of the event loop initiates an
    upstream connection only for a request on that path that carried the
    handshake and a token that validated: the upstream socket is made in
    [open], and [open] runs only after such an upgrade. *)
Theorem unauthenticated_upgrade_rejected (now : Z) (req : Request) (w : World) :
  pathname req = "/api/live-transcription" ->
  method req <> "OPTIONS" ->
  (secWebSocketProtocol req = None
   \/ (exists h, secWebSocketProtocol req = Some h
                 /\ Forall (fun e => startsWith e "access_token." = false)
                           (List.map trim (split "," h)))
   \/ (exists h pre post v,
         secWebSocketProtocol req = Some h
         /\ List.map trim (split "," h) = pre ++ ("access_token." +:+ v) :: post
         /\ Forall (fun e => startsWith e "access_token." = false) pre
         /\ jwt_verify v SESSION_SECRET now = false)) ->
  fetch now req w =
    (Returned (Some {| statusCode := 401; body := TextBody "Unauthorized";
                       headers := getCorsHeaders |}), w)
  /\ step w (EvRequest now req) = w
  /\ (forall w0 e,
        connectionsInitiated (step w0 e) <> connectionsInitiated w0 ->
        exists now' req' p,
          e = EvRequest now' req'
          /\ pathname req' = "/api/live-transcription"
          /\ handshake req' = true
          /\ validateWsToken now' (secWebSocketProtocol req') = Some p).
Proof.
  intros Hpath Hmethod Hheader.
  assert (Hvalid : validateWsToken now (secWebSocketProtocol req) = None)
    by (apply validateWsToken_rejects; exact Hheader).
  pose proof (fetch_unauthorized now req w Hpath Hmethod Hvalid) as Hfetch.
  split; [exact Hfetch|]. split.
  - unfold step. destruct (exitStatus w); [reflexivity|]. cbn [dispatch].
    unfold exec, mbind, M_bind, gets. destruct (accepting w); [|reflexivity].
    rewrite Hfetch. reflexivity.
  - intros w0 e Hnew.
    destruct (step_connections w0 e) as [Hsame|(now' & req' & p & He & Hp & Hhs & Hv & _)];
      [contradiction|eauto 10].
Qed.

(** C4. The authentication parameter of the built URL is the server's
    upstream key, there once, whatever the client options are; every other
    parameter of the URL is one of the client's own query parameters or a
    fixed default; every upstream connection the relay initiates goes to a
    URL built from the accepted request's query parameters alone and
    carries that key; and two accepted requests that differ only in the
    credential they present lead to the same upstream connection: the
    client's credential is no input of the upstream URL. *)
Theorem upstream_token_is_server_credential :
  (forall q,
     get (urlParams (buildDeepgramUrl q)) "token" = Some DEEPGRAM_API_KEY
     /\ List.filter (fun p => String.eqb (fst p) "token") (urlParams (buildDeepgramUrl q))
        = [("token", DEEPGRAM_API_KEY)])
  /\ (forall q1 q2,
        get (urlParams (buildDeepgramUrl q1)) "token"
        = get (urlParams (buildDeepgramUrl q2)) "token")
  /\ (forall q k v,
        In (k, v) (urlParams (buildDeepgramUrl q)) ->
        (k, v) = ("token", DEEPGRAM_API_KEY)
        \/ In (k, v) q
        \/ In (k, v) [ ("model", "nova-3"); ("language", "en"); ("encoding", "linear16");
                       ("sample_rate", "16000"); ("channels", "1");
                       ("smart_format", "true") ])
  /\ (forall w e u href,
        connectionsInitiated (step w e) = connectionsInitiated w ++ [(u, href)] ->
        get (urlParams href) "token" = Some DEEPGRAM_API_KEY
        /\ exists now req, e = EvRequest now req
                           /\ href = buildDeepgramUrl (urlSearchParams req))
  /\ (forall now req1 req2 w p1 p2,
        method req1 = method req2 ->
        pathname req1 = pathname req2 ->
        urlSearchParams req1 = urlSearchParams req2 ->
        handshake req1 = handshake req2 ->
        validateWsToken now (secWebSocketProtocol req1) = Some p1 ->
        validateWsToken now (secWebSocketProtocol req2) = Some p2 ->
        calls (step w (EvRequest now req1)) = calls (step w (EvRequest now req2))
        /\ upstreamSockets (step w (EvRequest now req1))
           = upstreamSockets (step w (EvRequest now req2))).
Proof.
  split; [|split; [|split; [|split]]].
  - apply token_is_server_key.
  - intros q1 q2.
    rewrite (proj1 (token_is_server_key q1)), (proj1 (token_is_server_key q2)). reflexivity.
  - apply built_parameters_origin.
  - intros w e u href Hnew.
    destruct (step_connections w e) as [Hsame|(now & req & p & He & _ & _ & _ & Hconn)].
    + rewrite Hsame in Hnew. apply (f_equal (@length _)) in Hnew.
      rewrite length_app in Hnew. cbn [length] in Hnew. lia.
    + rewrite Hconn in Hnew. apply app_inv_head in Hnew. injection Hnew as <- <-.
      split; [apply token_is_server_key|eauto].
  - intros now req1 req2 w p1 p2 Hm Hp Hq Hh Hv1 Hv2.
    unfold step. destruct (exitStatus w); [split; reflexivity|]. cbn [dispatch].
    unfold exec, mbind, M_bind, gets. destruct (accepting w); [|split; reflexivity].
    pose proof (fetch_world now req1 w) as H1. pose proof (fetch_world now req2 w) as H2.
    rewrite Hv1 in H1. rewrite Hv2 in H2. rewrite Hm, Hp, Hh in H1.
    destruct (fetch now req1 w) as [[r1|] w1], (fetch now req2 w) as [[r2|] w2];
      cbn [snd mret M_ret] in *; subst w1 w2;
      (destruct (negb (String.eqb (method req2) "OPTIONS")
                 && String.eqb (pathname req2) "/api/live-transcription"
                 && handshake req2) eqn:Hcond; [|split; reflexivity]);
      apply andb_true_iff in Hcond as [_ Hhs2];
      (assert (Hhs1 : handshake req1 = true) by congruence);
      destruct (server_upgrade_accepted req1
                  {| queryParams := urlSearchParams req1; deepgramWs := None |} p1 w Hhs1)
        as (w1 & -> & Hc1 & Hu1 & _);
      destruct (server_upgrade_accepted req2
                  {| queryParams := urlSearchParams req2; deepgramWs := None |} p2 w Hhs2)
        as (w2 & -> & Hc2 & Hu2 & _);
      cbn [snd queryParams] in *; rewrite Hc1, Hc2, Hu1, Hu2, Hq; split; reflexivity.
Qed.

(** *** Shutdown *)

Lemma Set_has_In (x : nat) (s : list nat) : Set_has x s = true <-> In x s.
Proof.
  unfold Set_has. rewrite existsb_exists. split.
  - intros (y & Hy & Heq). apply Nat.eqb_eq in Heq. congruence.
  - intros Hx. exists x. split; [exact Hx | apply Nat.eqb_refl].
Qed.

(** The body of the loop in [gracefulShutdown]. *)
Local Abbreviation closeQuietly :=
  (fun ws : nat => try_catch (ServerWebSocket_close ws None None) (mret tt)).

(** The loop over the registry: it returns whatever the close calls do; it
    calls [close()] on every member that is registered at the start, and on
    nothing else; it removes nothing but what a [close] handler removes. *)
Lemma forEach_closeQuietly (xs : list nat) (w : World) :
  exists w' mid,
    Set_forEach xs closeQuietly w = (Returned tt, w')
    /\ calls w' = calls w ++ mid
    /\ (forall c, In c mid ->
          (exists ws, c = WsClose ws None None /\ In ws xs /\ In ws (activeConnections w))
          \/ (exists u, c = UpstreamClose u 1000 "Client disconnected"))
    /\ (forall ws, In ws xs -> In ws (activeConnections w) -> In (WsClose ws None None) mid)
    /\ accepting w' = accepting w
    /\ exitStatus w' = exitStatus w
    /\ (forall ws, In ws (activeConnections w') -> In ws (activeConnections w))
    /\ (forall ws, In ws (activeConnections w) -> ws_close_throws ws = true ->
          In ws (activeConnections w'))
    /\ (close_handler_sync = true ->
        (forall ws, In ws xs -> In ws (activeConnections w) ->
           ws_close_throws ws = false
           /\ exists s, clientSockets w !! ws = Some s /\ status s = WsOpen) ->
        forall ws, In ws (activeConnections w') -> ~ In ws xs).
Proof.
  revert w. induction xs as [|x rest IH]; intros w.
  - exists w, []. cbn [Set_forEach]. rewrite app_nil_r.
    repeat split; auto; intros; contradiction.
  - cbn [Set_forEach]. unfold mbind, M_bind, gets.
    destruct (Set_has x (activeConnections w)) eqn:Hhas.
    + apply Set_has_In in Hhas.
      destruct (closeClient_result w x None None)
        as (w1 & -> & (extra & Hcalls1 & Hextra) & Hacc1 & Hexit1 & _ & Hother1
            & Hreg1 & Hthrow1 & Hopen1).
      assert (Hsub1 : forall ws, In ws (activeConnections w1) -> In ws (activeConnections w)).
      { intros ws Hws. destruct Hreg1 as [Hreg1|Hreg1]; rewrite Hreg1 in Hws; [exact Hws|].
        apply Set_delete_In in Hws. tauto. }
      assert (Hkeep1 : forall ws, ws <> x -> In ws (activeConnections w) ->
                                  In ws (activeConnections w1)).
      { intros ws Hne Hws. destruct Hreg1 as [Hreg1|Hreg1]; rewrite Hreg1; [exact Hws|].
        apply Set_delete_In. tauto. }
      destruct (IH w1) as (w' & mid & -> & Hcalls & Hmid & Hall & Hacc & Hexit & Hsub
                           & Hthrow & Hsync).
      exists w', (WsClose x None None :: extra ++ mid).
      split; [reflexivity|]. split; [|split; [|split; [|split; [|split; [|split; [|split]]]]]].
      * rewrite Hcalls, Hcalls1, <- app_assoc. reflexivity.
      * intros c [<-|Hc]; [left; exists x; cbn [In]; auto|].
        apply in_app_or in Hc as [Hc|Hc].
        -- destruct Hextra as [->|[u ->]]; [destruct Hc|].
           destruct Hc as [<-|[]]. right. eauto.
        -- destruct (Hmid c Hc) as [(ws & -> & Hin & Hlive)|Hup]; [|right; exact Hup].
           left. exists ws. cbn [In]. auto.
      * intros ws Hin Hlive. destruct (Nat.eq_dec ws x) as [->|Hne]; [left; reflexivity|].
        right. apply in_or_app. right. destruct Hin as [Heq|Hin]; [congruence|].
        apply Hall; auto.
      * congruence.
      * congruence.
      * auto.
      * intros ws Hlive Hthrows. apply Hthrow; [|exact Hthrows].
        destruct (Nat.eq_dec ws x) as [->|Hne]; [|auto].
        rewrite (Hthrow1 Hthrows). exact Hlive.
      * intros Hs Hgood ws Hws [<-|Hin].
        -- destruct (Hgood x (or_introl eq_refl) Hhas) as (Hnothrow & s & Hsx & Hst).
           destruct (Hopen1 Hnothrow s Hsx Hst) as [_ Hdel].
           apply Hsub in Hws. rewrite (Hdel Hs) in Hws.
           apply Set_delete_In in Hws. tauto.
        -- revert Hin. apply (Hsync Hs); [|exact Hws].
           intros y Hy Hlive.
           assert (Hne : y <> x).
           { intros ->.
             destruct (Hgood x (or_introl eq_refl) Hhas) as (Hnothrow & s & Hsx & Hst).
             destruct (Hopen1 Hnothrow s Hsx Hst) as [_ Hdel].
             rewrite (Hdel Hs) in Hlive. apply Set_delete_In in Hlive. tauto. }
           destruct (Hgood y (or_intror Hy) (Hsub1 y Hlive)) as (Hnothrow & s & Hsy & Hst).
           split; [exact Hnothrow|]. exists s. rewrite (Hother1 y Hne). auto.
    + assert (Hnot : ~ In x (activeConnections w)).
      { intros Hx. apply Set_has_In in Hx. congruence. }
      cbn [mret M_ret].
      destruct (IH w) as (w' & mid & -> & Hcalls & Hmid & Hall & Hacc & Hexit & Hsub
                          & Hthrow & Hsync).
      exists w', mid.
      split; [reflexivity|]. split; [exact Hcalls|].
      split; [|split; [|split; [|split; [|split; [|split]]]]]; auto.
      * intros c Hc. destruct (Hmid c Hc) as [(ws & -> & Hin & Hlive)|Hup]; [|right; exact Hup].
        left. exists ws. cbn [In]. auto.
      * intros ws [<-|Hin] Hlive; [contradiction|auto].
      * intros Hs Hgood ws Hws [<-|Hin]; [apply Hnot, Hsub, Hws|].
        revert Hin. apply (Hsync Hs); [|exact Hws].
        intros y Hy Hlive. apply Hgood; [right; exact Hy | exact Hlive].
Qed.

Lemma run_exited (w : World) (later : list Event) :
  exitStatus w <> None -> run w later = w.
Proof.
  intros Hexit. induction later as [|e later IH]; [reflexivity|].
  cbn [run List.fold_left]. unfold step at 2.
  destruct (exitStatus w); [exact IH | congruence].
Qed.

(** C9, as the code has it. A termination signal and an unhandled fault
    run the same routine. The routine always returns: it calls [close()]
    on every registered session, an error thrown by one call not keeping
    it from the others, then stops the server and exits with status 0,
    after which nothing runs. It never removes a registry entry itself:
    an entry goes only when its own [close] handler runs, so a session
    whose [close()] throws stays registered, and the registry ends empty
    when the runtime runs [close] handlers at once, no [close()] throws
    and every registered session is still open. *)
Theorem shutdown_closes_every_session (w : World) (e : ProcessEvent) :
  let w' := exec (process_on e) w in
  (forall e', process_on e' w = process_on e w)
  /\ fst (process_on e w) = Returned tt
  /\ (exists mid,
        calls w' = calls w ++ mid ++ [ServerStop; ProcessExit 0]
        /\ (forall ws, In ws (activeConnections w) -> In (WsClose ws None None) mid)
        /\ (forall ws c r, In (WsClose ws c r) mid ->
              In ws (activeConnections w) /\ c = None /\ r = None))
  /\ accepting w' = false
  /\ exitStatus w' = Some 0%Z
  /\ (forall ws, In ws (activeConnections w') -> In ws (activeConnections w))
  /\ (forall ws, In ws (activeConnections w) -> ws_close_throws ws = true ->
        In ws (activeConnections w'))
  /\ (close_handler_sync = true ->
      (forall ws, In ws (activeConnections w) ->
         ws_close_throws ws = false
         /\ exists s, clientSockets w !! ws = Some s /\ status s = WsOpen) ->
      activeConnections w' = [])
  /\ (exitStatus w = None ->
      step w (EvProcess e) = w' /\ forall later, run w' later = w').
Proof.
  cbv zeta. split.
  { intros e'. destruct e, e'; reflexivity. }
  assert (Hsame : process_on e w = gracefulShutdown "SIGTERM" w)
    by (destruct e; reflexivity).
  unfold exec. rewrite Hsame. clear Hsame.
  unfold gracefulShutdown, mbind, M_bind, gets.
  destruct (forEach_closeQuietly (activeConnections w) w)
    as (w1 & mid & Hloop & Hcalls & Hmid & Hall & Hacc & Hexit & Hsub & Hthrow & Hsync).
  rewrite Hloop. unfold call, modify. cbn [fst snd]. fields.
  split; [reflexivity|]. split; [|split; [|split; [|split; [|split; [|split]]]]].
  - exists mid. split; [rewrite Hcalls, <- !app_assoc; reflexivity|]. split.
    + intros ws Hws. apply Hall; exact Hws.
    + intros ws c r Hin.
      destruct (Hmid _ Hin) as [(ws' & [= -> -> ->] & _ & Hlive)|[u Hu]];
        [auto | discriminate].
  - reflexivity.
  - reflexivity.
  - exact Hsub.
  - exact Hthrow.
  - intros Hs Hgood.
    destruct (activeConnections w1) as [|ws rest] eqn:Hreg; [reflexivity|].
    exfalso. apply (Hsync Hs (fun ws Hin _ => Hgood ws Hin) ws).
    + rewrite ?Hreg. left. reflexivity.
    + apply Hsub. rewrite ?Hreg. left. reflexivity.
  - intros Halive. split.
    + unfold step. rewrite Halive. cbn [dispatch]. unfold exec.
      replace (process_on e w) with (gracefulShutdown "SIGTERM" w) by (destruct e; reflexivity).
      unfold gracefulShutdown, mbind, M_bind, gets.
      rewrite Hloop. reflexivity.
    + intros later. apply run_exited. fields. discriminate.
Qed.

End RelayFacts.

(** ** Examples on the concrete environment *)

(** C1 at an input: a request whose only token fails verification gets
    401 and changes nothing. *)
Lemma unauthenticated_upgrade_rejected_example :
  @fetch exampleEnv 0 (exampleRequest (Some "access_token.expired")) exampleSessions
  = (Returned (Some {| statusCode := 401; body := TextBody "Unauthorized";
                       headers := getCorsHeaders |}), exampleSessions)
  /\ @step exampleEnv exampleSessions
       (EvRequest 0 (exampleRequest (Some "access_token.expired"))) = exampleSessions.
Proof.
  destruct (@unauthenticated_upgrade_rejected exampleEnv 0
              (exampleRequest (Some "access_token.expired")) exampleSessions)
    as (Hfetch & Hstep & _).
  - reflexivity.
  - discriminate.
  - right. right. exists "access_token.expired", [], [], "expired".
    repeat split; constructor.
  - split; [exact Hfetch | exact Hstep].
Defined.

(** C5 at an input: the upstream socket of session 0 closes with 1011 and
    [server error], and client socket 0 is closed with the same. *)
Lemma upstream_close_propagated_verbatim_example :
  exists s',
    clientSockets (@step exampleEnv exampleSessions (EvUpstreamClose 0 1011 "server error")) !! 0%nat
    = Some s'
    /\ status s' = WsClosedByServer (Some 1011%Z) (Some "server error").
Proof.
  assert (Hup : exists up, upstreamSockets exampleSessions !! 0%nat = Some up
                           /\ listeners up = Some 0%nat)
    by (eexists; vm_compute; split; reflexivity).
  destruct Hup as (up & Hup & Hl).
  assert (Hs : exists s, clientSockets exampleSessions !! 0%nat = Some s /\ status s = WsOpen)
    by (eexists; vm_compute; split; reflexivity).
  destruct Hs as (s & Hs & Hst).
  destruct (@upstream_close_propagated_verbatim exampleEnv exampleSessions 0 0 up
              1011 "server error") as [_ Hclosed];
    [vm_compute; reflexivity | exact Hup | exact Hl |].
  destruct (Hclosed eq_refl s Hs Hst) as (s' & Hs' & Hverbatim & _).
  exists s'. split; [exact Hs'|].
  apply Hverbatim; [reflexivity | cbn [String.length]; lia].
Defined.

(** C5, as the spec words it, fails: the connection of upstream socket 0
    is lost, which its close event reports with code 1006 and no reason.
    The relay calls [ws.close] with 1006, and client socket 0 is closed
    without a status: its close code is 1005, not 1006. *)
Lemma abnormal_upstream_close_not_propagated :
  exists s s',
    clientSockets exampleSessions !! 0%nat = Some s
    /\ status s = WsOpen
    /\ In (WsClose 0 (Some 1006%Z) (Some EmptyString))
          (calls (@step exampleEnv exampleSessions (EvUpstreamClose 0 1006 EmptyString)))
    /\ clientSockets (@step exampleEnv exampleSessions (EvUpstreamClose 0 1006 EmptyString)) !! 0%nat
       = Some s'
    /\ status s' = WsClosedByServer (Some 1005%Z) (Some EmptyString)
    /\ status s' <> WsClosedByServer (Some 1006%Z) (Some EmptyString).
Proof.
  do 2 eexists. vm_compute.
  split; [reflexivity|]. split; [reflexivity|]. split; [auto 10|].
  split; [reflexivity|]. split; [reflexivity | discriminate].
Qed.

(** C10 at an input: the client of a session whose upstream socket is still
    connecting goes away; nothing is sent upstream, and when the upstream
    socket then opens it is open, with still nothing sent to it. *)
Lemma client_close_leaves_connecting_upstream_example :
  websocket_close 0 1001 "going away" exampleConnecting
  = (Returned tt, with_activeConnections (Set_delete 0) exampleConnecting)
  /\ calls (@step exampleEnv
              (@step exampleEnv exampleConnecting (EvClientClose 0 1001 "going away"))
              (EvUpstreamOpen 0))
     = calls exampleConnecting
  /\ readyState <$>
       upstreamSockets (@step exampleEnv
                          (@step exampleEnv exampleConnecting
                             (EvClientClose 0 1001 "going away"))
                          (EvUpstreamOpen 0)) !! 0%nat
     = Some OPEN.
Proof.
  assert (Hpair : exists s up,
            clientSockets exampleConnecting !! 0%nat = Some s
            /\ deepgramWs (data s) = Some 0%nat
            /\ upstreamSockets exampleConnecting !! 0%nat = Some up
            /\ readyState up = CONNECTING)
    by (do 2 eexists; vm_compute; repeat split; reflexivity).
  destruct Hpair as (s & up & Hs & Hu & Hup & Hr).
  destruct (@client_close_leaves_connecting_upstream exampleEnv exampleConnecting 0
              1001 "going away" s 0 up Hs Hu Hup Hr) as [Hclose Hlater].
  split; [exact Hclose|].
  destruct Hlater as (_ & _ & Hcalls & Hopen); [vm_compute; reflexivity|].
  split; [exact Hcalls|]. rewrite Hopen. reflexivity.
Defined.

(** C9, as the spec words it, fails: with three sessions open and a
    [close()] that throws on session 1, the shutdown closes sessions 0 and
    2, exits with status 0, and the registry still holds session 1, whose
    upstream socket is still open. *)
Lemma shutdown_leaves_failed_session_registered :
  activeConnections exampleSessions = [0; 1; 2]%nat
  /\ exitStatus (@step exampleEnv exampleSessions (EvProcess SIGTERM)) = Some 0%Z
  /\ activeConnections (@step exampleEnv exampleSessions (EvProcess SIGTERM)) = [1%nat]
  /\ activeConnections (@step exampleEnv exampleSessions (EvProcess SIGTERM)) <> []
  /\ readyState <$> (upstreamSockets (@step exampleEnv exampleSessions (EvProcess SIGTERM)))
     = [CLOSING; OPEN; CLOSING].
Proof. repeat split; try (vm_compute; reflexivity). vm_compute. discriminate. Qed.

(** * Further properties *)

Import JsStringFacts UrlSearchFacts.

(** ** The token validator on whole headers *)

Module TrimFacts.

Lemma trimEnd_idempotent (s : string) : trimEnd (trimEnd s) = trimEnd s.
Proof.
  induction s as [|c s IH]; [reflexivity|]. cbn [trimEnd].
  destruct (trimEnd s) as [|d t] eqn:Ht.
  - destruct (isWhiteSpace c) eqn:Hc; [reflexivity|]. cbn [trimEnd]. rewrite Hc. reflexivity.
  - change (trimEnd (String c (String d t))) with
      (match trimEnd (String d t) with
       | EmptyString => if isWhiteSpace c then EmptyString else String c EmptyString
       | u => String c u
       end).
    rewrite IH. reflexivity.
Qed.

Lemma trimStart_idempotent (s : string) : trimStart (trimStart s) = trimStart s.
Proof.
  induction s as [|c s IH]; [reflexivity|]. cbn [trimStart].
  destruct (isWhiteSpace c) eqn:Hc; [exact IH|]. cbn [trimStart]. rewrite Hc. reflexivity.
Qed.

(** Trimming the end keeps a start that is already trimmed. *)
Lemma trimStart_trimEnd (s : string) :
  trimStart s = s -> trimStart (trimEnd s) = trimEnd s.
Proof.
  destruct s as [|c s]; [reflexivity|]. cbn [trimStart trimEnd].
  destruct (isWhiteSpace c) eqn:Hc.
  - intros Hs. exfalso.
    assert (Hlen : forall x, String.length (trimStart x) <= String.length x).
    { induction x as [|a x IHx]; cbn [trimStart]; [lia|].
      destruct (isWhiteSpace a); cbn [String.length]; lia. }
    specialize (Hlen s). rewrite Hs in Hlen. cbn [String.length] in Hlen. lia.
  - intros _. destruct (trimEnd s); cbn [trimStart]; rewrite Hc; reflexivity.
Qed.

Lemma trim_idempotent (s : string) : trim (trim s) = trim s.
Proof.
  unfold trim.
  rewrite (trimStart_trimEnd (trimStart s) (trimStart_idempotent s)).
  apply trimEnd_idempotent.
Qed.

Lemma includes_trimStart (s : string) (c : ascii) :
  includes s c = false -> includes (trimStart s) c = false.
Proof.
  induction s as [|a s IH]; [auto|]. cbn [trimStart includes].
  intros Hs. apply orb_false_iff in Hs as [Ha Hs].
  destruct (isWhiteSpace a); [auto|]. cbn [includes]. rewrite Ha, Hs. reflexivity.
Qed.

Lemma includes_trimEnd (s : string) (c : ascii) :
  includes s c = false -> includes (trimEnd s) c = false.
Proof.
  induction s as [|a s IH]; [auto|]. cbn [trimEnd includes].
  intros Hs. apply orb_false_iff in Hs as [Ha Hs]. specialize (IH Hs).
  destruct (trimEnd s) as [|d t].
  - destruct (isWhiteSpace a); [reflexivity|]. cbn [includes]. rewrite Ha. reflexivity.
  - cbn [includes] in *. rewrite Ha. exact IH.
Qed.

(** No piece of [s.split(sep)] holds the separator. *)
Lemma split_pieces (sep : ascii) (s e : string) :
  In e (split sep s) -> includes e sep = false.
Proof.
  revert e. induction s as [|a s IH]; intros e; cbn [split].
  - intros [<-|[]]. reflexivity.
  - destruct (Ascii.eqb a sep) eqn:Ha.
    + intros [<-|Hin]; [reflexivity | auto].
    + destruct (split sep s) as [|piece pieces].
      * intros [<-|[]]. cbn [includes]. rewrite Ha. reflexivity.
      * intros [<-|Hin].
        -- cbn [includes]. rewrite Ha. apply IH. left. reflexivity.
        -- apply IH. right. exact Hin.
Qed.

(** A string of white space only: trimming its start leaves nothing. *)
Lemma white_trimEnd (pad : string) : trimStart pad = EmptyString -> trimEnd pad = EmptyString.
Proof.
  induction pad as [|c pad IH]; [reflexivity|]. cbn [trimStart trimEnd].
  destruct (isWhiteSpace c) eqn:Hc; [|discriminate].
  intros Hpad. rewrite (IH Hpad). reflexivity.
Qed.

Lemma white_no_comma (pad : string) :
  trimStart pad = EmptyString -> includes pad "," = false.
Proof.
  induction pad as [|c pad IH]; [reflexivity|]. cbn [trimStart includes].
  destruct (isWhiteSpace c) eqn:Hc; [|discriminate].
  intros Hpad. rewrite (IH Hpad), orb_false_r.
  destruct (Ascii.eqb c ",") eqn:Heq; [|reflexivity].
  apply Ascii.eqb_eq in Heq. subst c. discriminate.
Qed.

Lemma trimStart_padded (pad s : string) :
  trimStart pad = EmptyString -> trimStart (pad +:+ s) = trimStart s.
Proof.
  induction pad as [|c pad IH]; [reflexivity|]. cbn [trimStart String.append].
  destruct (isWhiteSpace c); [exact IH | discriminate].
Qed.

Lemma trimEnd_padded (s pad : string) :
  trimStart pad = EmptyString -> trimEnd (s +:+ pad) = trimEnd s.
Proof.
  intros Hpad. induction s as [|c s IH]; cbn [String.append trimEnd].
  - apply white_trimEnd. exact Hpad.
  - rewrite IH. reflexivity.
Qed.

Lemma trimEnd_cons (c : ascii) (s : string) :
  trimEnd s = s -> s <> EmptyString \/ isWhiteSpace c = false ->
  trimEnd (String c s) = String c s.
Proof.
  intros Hs Hc. cbn [trimEnd]. rewrite Hs.
  destruct s; [|reflexivity]. destruct Hc as [Hc|Hc]; [congruence|]. rewrite Hc. reflexivity.
Qed.

(** The candidate entry [access_token.t] is its own trimmed form when [t]
    does not end in white space. *)
Lemma trim_candidate (t : string) :
  trimEnd t = t -> trim ("access_token." +:+ t) = "access_token." +:+ t.
Proof.
  intros Ht. unfold trim. change (trimStart ("access_token." +:+ t)) with ("access_token." +:+ t).
  cbn [String.append].
  repeat (apply trimEnd_cons; [|left; discriminate]).
  apply trimEnd_cons; [exact Ht | right; reflexivity].
Qed.

End TrimFacts.

Section TokenHeaders.
Context `{Env}.
Import TrimFacts.

(** X1. A header made of the one entry [access_token.t], with any white
    space around it, is accepted when [t] has no comma, does not end in
    white space and verifies; what is returned, to be echoed to the client,
    is the entry without the white space around it. *)
Theorem validateWsToken_accepts_padded_entry (now : Z) (lead t trail : string) :
  trimStart lead = EmptyString ->
  trimStart trail = EmptyString ->
  includes t "," = false ->
  trimEnd t = t ->
  jwt_verify t SESSION_SECRET now = true ->
  validateWsToken now (Some (lead +:+ ("access_token." +:+ t) +:+ trail))
  = Some ("access_token." +:+ t).
Proof.
  intros Hlead Htrail Hcomma Hend Hverify.
  apply validateWsToken_accepts. exists [], [], t.
  repeat split; auto.
  rewrite split_whole.
  - cbn [List.map app]. f_equal. unfold trim.
    rewrite trimStart_padded by exact Hlead.
    change (trimStart (("access_token." +:+ t) +:+ trail))
      with (("access_token." +:+ t) +:+ trail).
    rewrite trimEnd_padded by exact Htrail.
    pose proof (trim_candidate t Hend) as Htrim. unfold trim in Htrim.
    exact Htrim.
  - rewrite !includes_app, (white_no_comma lead Hlead), (white_no_comma trail Htrail).
    cbn [includes String.append Ascii.eqb Bool.eqb orb]. rewrite Hcomma. reflexivity.
Qed.

(** X2. Whatever the validator returns is a single protocol token fit to
    be echoed in a header: it starts with [access_token.], holds no comma,
    and has no white space at either end. *)
Theorem validateWsToken_returns_clean_token (now : Z) (protocols : option string) (p : string) :
  validateWsToken now protocols = Some p ->
  startsWith p "access_token." = true
  /\ includes p "," = false
  /\ trim p = p
  /\ exists h, protocols = Some h /\ In p (List.map trim (split "," h)).
Proof.
  destruct protocols as [h|]; [|discriminate].
  intros Hvalid.
  apply validateWsToken_accepts in Hvalid as (pre & post & v & Hentries & _ & Hp & _).
  assert (Hin : In p (List.map trim (split "," h))).
  { rewrite Hentries. apply in_or_app. right. left. reflexivity. }
  split; [rewrite Hp; apply startsWith_app|].
  apply in_map_iff in Hin as Hin'. destruct Hin' as (e & <- & He).
  split; [|split; [apply trim_idempotent | eauto]].
  unfold trim. apply includes_trimEnd, includes_trimStart.
  exact (split_pieces "," h e He).
Qed.

End TokenHeaders.

(** ** The HTTP router *)

Section Router.
Context `{Env}.

Ltac unfold_m :=
  unfold exec, withListener, upstreamBecomes, peerClosed, withSocket, withUpstream,
    call, modify, gets, throw, try_catch, mbind, M_bind, mret, M_ret in *.

Ltac fields :=
  cbn [activeConnections clientSockets upstreamSockets accepting exitStatus calls
       with_activeConnections with_clientSockets with_upstreamSockets with_accepting
       with_exitStatus with_call] in *.

Lemma validateWsToken_truthy (now : Z) (protocols : option string) (p : string) :
  validateWsToken now protocols = Some p -> truthy p = true.
Proof.
  destruct protocols as [h|]; [|discriminate]. intros Hvalid.
  apply validateWsToken_accepts in Hvalid as (_ & _ & v & _ & _ & -> & _). reflexivity.
Qed.

(** [fetch] on the live-transcription path with a token that validated:
    the answer depends on the handshake alone. *)
Lemma fetch_validated (now : Z) (req : Request) (w : World) (p : string) :
  method req <> "OPTIONS" ->
  pathname req = "/api/live-transcription" ->
  validateWsToken now (secWebSocketProtocol req) = Some p ->
  fetch now req w =
  if handshake req
  then (Returned None,
        snd (server_upgrade req
               {| queryParams := urlSearchParams req; deepgramWs := None |} p w))
  else (Returned (Some {| statusCode := 400; body := TextBody "WebSocket upgrade failed";
                          headers := [] |}), w).
Proof.
  intros Hmethod Hpath Hvalid. unfold fetch.
  apply String.eqb_neq in Hmethod. rewrite Hmethod, Hpath, Hvalid.
  cbn [String.eqb Ascii.eqb Bool.eqb whenTruthy]. rewrite !andb_false_r.
  rewrite (validateWsToken_truthy now _ p Hvalid).
  destruct (handshake req) eqn:Hhs.
  - destruct (server_upgrade_accepted req
                {| queryParams := urlSearchParams req; deepgramWs := None |} p w Hhs)
      as (w' & Hup & _).
    unfold mbind, M_bind. rewrite Hup. reflexivity.
  - unfold server_upgrade, mbind, M_bind. rewrite Hhs. reflexivity.
Qed.

(** X3. [fetch] never throws. Either it answers, with one of six status
    codes and without touching any session, socket or registry, and the
    answer carries the CORS headers unless it is the 400 of a failed
    upgrade, which carries none; or it upgrades, which only happens for a
    request other than OPTIONS on the live-transcription path with a
    handshake and a token that validated. An OPTIONS request is always
    answered 204, on every path. *)
Theorem fetch_answers_or_upgrades (now : Z) (req : Request) (w : World) :
  (exists r,
     fetch now req w = (Returned (Some r), w)
     /\ In (statusCode r) [200; 204; 400; 401; 404; 500]%Z
     /\ (if (statusCode r =? 400)%Z then headers r = [] else headers r = getCorsHeaders)
     /\ (method req = "OPTIONS" -> statusCode r = 204%Z))
  \/ (exists p w',
       fetch now req w = (Returned None, w')
       /\ method req <> "OPTIONS"
       /\ pathname req = "/api/live-transcription"
       /\ handshake req = true
       /\ validateWsToken now (secWebSocketProtocol req) = Some p).
Proof.
  destruct (String.eqb (method req) "OPTIONS") eqn:Hmethod.
  { left. unfold fetch. rewrite Hmethod. eexists. split; [reflexivity|].
    cbn. repeat split; auto. }
  assert (Hm : method req <> "OPTIONS") by (apply String.eqb_neq; exact Hmethod).
  destruct (String.eqb (pathname req) "/api/live-transcription") eqn:Hpath.
  - apply String.eqb_eq in Hpath.
    destruct (validateWsToken now (secWebSocketProtocol req)) as [p|] eqn:Hvalid.
    + rewrite (fetch_validated now req w p Hm Hpath Hvalid).
      destruct (handshake req) eqn:Hhs.
      * right. eauto 10.
      * left. eexists. split; [reflexivity|]. cbn. repeat split; auto. congruence.
    + left. rewrite (fetch_unauthorized now req w Hpath Hm Hvalid).
      eexists. split; [reflexivity|]. cbn. repeat split; auto. congruence.
  - left. unfold fetch. rewrite Hmethod, Hpath.
    destruct (String.eqb (method req) "GET" && String.eqb (pathname req) "/api/session");
      [eexists; split; [reflexivity|]; cbn; repeat split; auto; congruence|].
    destruct (String.eqb (method req) "GET" && String.eqb (pathname req) "/api/metadata").
    { unfold handleMetadata. destruct deepgram_toml;
        (eexists; split; [reflexivity|]); cbn; repeat split; auto 10; congruence. }
    destruct (String.eqb (method req) "GET" && String.eqb (pathname req) "/health");
      eexists; (split; [reflexivity|]); cbn; repeat split; auto 10; congruence.
Qed.

Lemma Set_add_In (x y : nat) (s : list nat) : In y (Set_add x s) <-> y = x \/ In y s.
Proof.
  unfold Set_add. destruct (existsb (Nat.eqb x) s) eqn:Hhas.
  - apply existsb_exists in Hhas as (z & Hz & Heq). apply Nat.eqb_eq in Heq. subst z.
    split; [auto|]. intros [->|Hy]; auto.
  - rewrite in_app_iff. cbn [In]. intuition.
Qed.

(** X4. An upgrade request with a token that validated: with the
    handshake, [fetch] returns [undefined] and there is exactly one new
    session, whose client socket answers the validated protocol, keeps the
    request's query parameters, is registered and open, and whose own new
    upstream socket is connecting to the URL built from those parameters;
    without the handshake the answer is 400 and nothing is created. *)
Theorem validated_upgrade_outcome (now : Z) (req : Request) (w : World) (p : string) :
  method req <> "OPTIONS" ->
  pathname req = "/api/live-transcription" ->
  validateWsToken now (secWebSocketProtocol req) = Some p ->
  (handshake req = false ->
   fetch now req w =
   (Returned (Some {| statusCode := 400; body := TextBody "WebSocket upgrade failed";
                      headers := [] |}), w))
  /\ (handshake req = true ->
      exists w',
        fetch now req w = (Returned None, w')
        /\ clientSockets w' =
           clientSockets w ++
           [{| data := {| queryParams := urlSearchParams req;
                          deepgramWs := Some (length (upstreamSockets w)) |};
               protocol := p; status := WsOpen |}]
        /\ upstreamSockets w' =
           upstreamSockets w ++
           [{| url := buildDeepgramUrl (urlSearchParams req); readyState := CONNECTING;
               listeners := Some (length (clientSockets w)); deepgramMessageCount := 0 |}]
        /\ In (length (clientSockets w)) (activeConnections w')
        /\ (forall x, In x (activeConnections w) -> In x (activeConnections w'))
        /\ calls w' = calls w ++ [NewWebSocket (length (upstreamSockets w))
                                              (buildDeepgramUrl (urlSearchParams req))]).
Proof.
  intros Hm Hpath Hvalid. pose proof (fetch_validated now req w p Hm Hpath Hvalid) as Hfetch.
  split; intros Hhs; rewrite Hhs in Hfetch; [exact Hfetch|].
  destruct (server_upgrade_accepted req
              {| queryParams := urlSearchParams req; deepgramWs := None |} p w Hhs)
    as (w' & Hup & Hcalls & Hus & Hcs & Hreg & _).
  rewrite Hup in Hfetch. cbn [snd] in Hfetch.
  exists w'. split; [exact Hfetch|]. cbn [queryParams] in *.
  repeat split; auto.
  - rewrite Hreg. apply Set_add_In. left. reflexivity.
  - intros x Hx. rewrite Hreg. apply Set_add_In. right. exact Hx.
Qed.

Ltac taken Hp :=
  let Hno := fresh in
  intros (_ & _ & Hno); exfalso; apply Hno; split; [assumption|];
  rewrite Hp; cbn [In]; auto.

(** X17. [fetch] answers 404 exactly for the requests that no route
    takes: any method but OPTIONS, a path other than the live-transcription
    one, and not a GET of one of the three JSON routes. In particular the
    JSON routes answer GET only, while the live-transcription path is
    never a 404, whatever the method. *)
Theorem fetch_not_found_iff (now : Z) (req : Request) (w : World) :
  (exists r, fst (fetch now req w) = Returned (Some r) /\ statusCode r = 404%Z)
  <-> method req <> "OPTIONS"
      /\ pathname req <> "/api/live-transcription"
      /\ ~ (method req = "GET"
            /\ In (pathname req) ["/api/session"; "/api/metadata"; "/health"]).
Proof.
  destruct (String.eqb_spec (method req) "OPTIONS") as [Ho|Ho].
  { unfold fetch. rewrite Ho. cbn. split; [|tauto].
    intros (r & [= <-] & Hr). discriminate. }
  destruct (String.eqb_spec (pathname req) "/api/live-transcription") as [Hlive|Hlive].
  { split; [|tauto]. intros (r & Hfetch & Hr). exfalso.
    destruct (validateWsToken now (secWebSocketProtocol req)) as [p|] eqn:Hvalid.
    - rewrite (fetch_validated now req w p Ho Hlive Hvalid) in Hfetch.
      destruct (handshake req); cbn [fst] in Hfetch; [discriminate|].
      injection Hfetch as <-. discriminate.
    - rewrite (fetch_unauthorized now req w Hlive Ho Hvalid) in Hfetch.
      injection Hfetch as <-. discriminate. }
  unfold fetch.
  destruct (String.eqb_spec (method req) "OPTIONS") as [|_]; [contradiction|].
  destruct (String.eqb_spec (pathname req) "/api/live-transcription") as [|_];
    [contradiction|].
  destruct (String.eqb_spec (method req) "GET") as [Hg|Hg]; cbn [andb].
  - destruct (String.eqb_spec (pathname req) "/api/session") as [Hp1|Hp1].
    { split; [intros (r & [= <-] & Hr); discriminate | taken Hp1]. }
    destruct (String.eqb_spec (pathname req) "/api/metadata") as [Hp2|Hp2].
    { split; [|taken Hp2]. intros (r & Hfetch & Hr). exfalso.
      unfold handleMetadata in Hfetch.
      destruct deepgram_toml; injection Hfetch as <-; discriminate. }
    destruct (String.eqb_spec (pathname req) "/health") as [Hp3|Hp3].
    { split; [intros (r & [= <-] & Hr); discriminate | taken Hp3]. }
    split; [|intros _; eexists; split; reflexivity].
    intros _. repeat split; auto. intros (_ & [Hp|[Hp|[Hp|[]]]]); congruence.
  - split; [|intros _; eexists; split; reflexivity].
    intros _. repeat split; auto. tauto.
Qed.

End Router.

(** ** The URL builder and the client's query *)

Section UrlBuilderMore.
Context `{Env}.

(** X5. The built URL is a function of what [get] returns for nine names:
    two queries that agree on the first value of [model], [language],
    [encoding], [sample_rate], [channels], [smart_format], [punctuate],
    [diarize] and [filler_words] give the same URL. Any other parameter of
    the client ([token] among them) and any repeated value is dropped. *)
Theorem buildDeepgramUrl_reads_nine_names (q1 q2 : URLSearchParams) :
  Forall (fun name => get q1 name = get q2 name)
         [ "model"; "language"; "encoding"; "sample_rate"; "channels"; "smart_format";
           "punctuate"; "diarize"; "filler_words" ] ->
  buildDeepgramUrl q1 = buildDeepgramUrl q2.
Proof.
  intros Hsame.
  repeat match goal with
         | Hf : Forall _ (_ :: _) |- _ => inversion Hf as [|? ? ? ?]; subst; clear Hf
         end.
  unfold buildDeepgramUrl.
  repeat match goal with Heq : get q1 _ = get q2 _ |- _ => rewrite Heq; clear Heq end.
  reflexivity.
Qed.

Lemma buildDeepgramUrl_text (q : URLSearchParams) :
  exists params,
    buildDeepgramUrl q = "wss://api.deepgram.com/v1/listen" +:+ String "?" (serialize params)
    /\ urlParams (buildDeepgramUrl q) = params
    /\ List.map fst params =
       [ "token"; "model"; "language"; "encoding"; "sample_rate"; "channels"; "smart_format" ]
       ++ List.filter (fun name => match get q name with Some _ => true | None => false end)
                      [ "punctuate"; "diarize"; "filler_words" ].
Proof.
  assert (Hbuilt : exists p rest,
    buildDeepgramUrl q =
      toString {| beforeQuery := "wss://api.deepgram.com/v1/listen";
                  UrlSearch.searchParams := p :: rest |}
    /\ List.map fst (p :: rest) =
       [ "token"; "model"; "language"; "encoding"; "sample_rate"; "channels"; "smart_format" ]
       ++ List.filter (fun name => match get q name with Some _ => true | None => false end)
                      [ "punctuate"; "diarize"; "filler_words" ]).
  { unfold buildDeepgramUrl. cbn [List.filter].
    destruct (get q "punctuate"), (get q "diarize"), (get q "filler_words");
      do 2 eexists; split; reflexivity. }
  destruct Hbuilt as (p & rest & Hbuilt & Hnames).
  exists (p :: rest). split; [|split; [|exact Hnames]].
  - rewrite Hbuilt. apply toString_query.
  - unfold urlParams. rewrite Hbuilt, new_URL_toString by reflexivity. reflexivity.
Qed.

(** X6. Whatever bytes the client's values hold ([&], [=], [%], [+],
    spaces, anything), the built URL is the fixed endpoint, a question
    mark and the serialised parameters; read back, it has no parameter
    name twice, the seven fixed names first and in order, then those of
    [punctuate], [diarize], [filler_words] the client gave, and no other
    name: a value cannot add or override a parameter. *)
Theorem buildDeepgramUrl_no_injection (q : URLSearchParams) :
  buildDeepgramUrl q =
    "wss://api.deepgram.com/v1/listen" +:+ String "?" (serialize (urlParams (buildDeepgramUrl q)))
  /\ List.NoDup (List.map fst (urlParams (buildDeepgramUrl q)))
  /\ List.map fst (urlParams (buildDeepgramUrl q)) =
     [ "token"; "model"; "language"; "encoding"; "sample_rate"; "channels"; "smart_format" ]
     ++ List.filter (fun name => match get q name with Some _ => true | None => false end)
                    [ "punctuate"; "diarize"; "filler_words" ].
Proof.
  destruct (buildDeepgramUrl_text q) as (params & Htext & Hparams & Hnames).
  rewrite Hparams. split; [exact Htext|]. split; [|exact Hnames].
  rewrite Hnames. cbn [List.filter].
  destruct (get q "punctuate"), (get q "diarize"), (get q "filler_words"); cbn [app];
    repeat (apply List.NoDup_cons;
            [intros Hin; cbn [In] in Hin;
             repeat (destruct Hin as [Hin|Hin]; [discriminate Hin|]); exact Hin|]);
    apply List.NoDup_nil.
Qed.

End UrlBuilderMore.

(** X5 at an input: a [token] of the client's, an unknown option and a
    second [model] change nothing. *)
Lemma buildDeepgramUrl_reads_nine_names_example :
  @buildDeepgramUrl exampleEnv
     [("token", "mine"); ("model", "nova-2"); ("callback", "http://x"); ("model", "base")]
  = @buildDeepgramUrl exampleEnv [("model", "nova-2")].
Proof.
  apply (@buildDeepgramUrl_reads_nine_names exampleEnv). repeat constructor.
Defined.

(** ** Sessions: one client socket, one upstream socket *)

Section Sessions.
Context `{Env}.

Ltac unfold_m :=
  unfold exec, withListener, upstreamBecomes, peerClosed, withSocket, withUpstream,
    call, modify, gets, throw, try_catch, mbind, M_bind, mret, M_ret in *.

Ltac fields :=
  cbn [activeConnections clientSockets upstreamSockets accepting exitStatus calls
       with_activeConnections with_clientSockets with_upstreamSockets with_accepting
       with_exitStatus with_call] in *.

Lemma keeps_ret {A B : Type} (f : World -> B) (a : A) : keeps f (mret a).
Proof. intros w. reflexivity. Qed.

Lemma keeps_throw {A B : Type} (f : World -> B) : keeps f (@throw A).
Proof. intros w. reflexivity. Qed.

Lemma keeps_gets {B C : Type} (f : World -> B) (g : World -> C) : keeps f (gets g).
Proof. intros w. reflexivity. Qed.

Lemma keeps_bind {A B C : Type} (f : World -> C) (m : M A) (k : A -> M B) :
  keeps f m -> (forall a, keeps f (k a)) -> keeps f (m ≫= k).
Proof.
  intros Hm Hk w. unfold mbind, M_bind. specialize (Hm w).
  destruct (m w) as [[a|] w1]; cbn [snd] in *; [rewrite Hk|]; exact Hm.
Qed.

Lemma keeps_try_catch {B : Type} (f : World -> B) (body handler : M unit) :
  keeps f body -> keeps f handler -> keeps f (try_catch body handler).
Proof.
  intros Hb Hh w. unfold try_catch. specialize (Hb w).
  destruct (body w) as [[a|] w1]; cbn [snd] in *; [|rewrite Hh]; exact Hb.
Qed.

Lemma keeps_modify {B : Type} (f : World -> B) (g : World -> World) :
  (forall w, f (g w) = f w) -> keeps f (modify g).
Proof. intros Hg w. apply Hg. Qed.

(** The socket handed to the continuation is the one the world holds. *)
Lemma keeps_withSocket {B : Type} (f : World -> B) (ws : nat) (k : ServerWebSocket -> M unit) :
  (forall s w, clientSockets w !! ws = Some s -> f (snd (k s w)) = f w) ->
  keeps f (withSocket ws k).
Proof.
  intros Hk w. unfold withSocket, mbind, M_bind, gets.
  destruct (clientSockets w !! ws) as [s|] eqn:Hs; [apply Hk; exact Hs | reflexivity].
Qed.

Lemma keeps_withUpstream {B : Type} (f : World -> B) (u : nat) (k : UpstreamWs -> M unit) :
  (forall up w, upstreamSockets w !! u = Some up -> f (snd (k up w)) = f w) ->
  keeps f (withUpstream u k).
Proof.
  intros Hk w. unfold withUpstream, mbind, M_bind, gets.
  destruct (upstreamSockets w !! u) as [up|] eqn:Hup; [apply Hk; exact Hup | reflexivity].
Qed.

(** Rewriting an element of a list by one with the same image leaves the
    images as they were. *)
Lemma fmap_insert_same {A B : Type} (g : A -> B) (l : list A) (i : nat) (x y : A) :
  l !! i = Some x -> g y = g x -> g <$> <[i := y]> l = g <$> l.
Proof.
  intros Hx Hg. rewrite list_fmap_insert, Hg. apply list_insert_id.
  rewrite list_lookup_fmap, Hx. reflexivity.
Qed.

Local Abbreviation shape := sessionShape.

Lemma keeps_at {A B : Type} (f : World -> B) (m : M A) (w : World) :
  keeps f m -> f (snd (m w)) = f w.
Proof. intros Hm. apply Hm. Qed.

Lemma shape_upstream_update (w : World) (u : nat) (up up' : UpstreamWs) :
  upstreamSockets w !! u = Some up ->
  url up' = url up -> listeners up' = listeners up ->
  shape (with_upstreamSockets (fun l => <[u := up']> l) w) = shape w.
Proof.
  intros Hup Hurl Hl. unfold sessionShape, sessionData, upstreamLinks. fields. f_equal.
  apply (fmap_insert_same _ _ _ up); [exact Hup | congruence].
Qed.

Lemma shape_client_update (w : World) (ws : nat) (s s' : ServerWebSocket) :
  clientSockets w !! ws = Some s ->
  data s' = data s ->
  shape (with_clientSockets (fun l => <[ws := s']> l) w) = shape w.
Proof.
  intros Hs Hd. unfold sessionShape, sessionData, upstreamLinks. fields. f_equal.
  apply (fmap_insert_same _ _ _ s); [exact Hs | exact Hd].
Qed.

Ltac keeps_steps :=
  repeat first
    [ apply keeps_ret | apply keeps_throw | apply keeps_gets
    | apply keeps_bind; [|intros ?]
    | apply keeps_try_catch
    | apply keeps_modify; intros ?; reflexivity
    | progress cbv zeta
    | match goal with
      | |- keeps _ (match ?x with _ => _ end) => destruct x
      | |- keeps _ (if ?b then _ else _) => destruct b
      end ].

Lemma shape_WebSocket_close (u : nat) (code : Z) (reason : string) :
  keeps shape (WebSocket_close u code reason).
Proof.
  unfold WebSocket_close.
  destruct (negb _); [apply keeps_throw|]. destruct (_ <? _)%nat; [apply keeps_throw|].
  apply keeps_withUpstream. intros up w Hup.
  destruct (readyState up); try reflexivity;
    unfold call, modify, mbind, M_bind; cbn [snd];
    rewrite (shape_upstream_update (with_call _ w) u up) by (fields; auto); reflexivity.
Qed.

Lemma shape_websocket_close (ws : nat) (code : Z) (reason : string) :
  keeps shape (websocket_close ws code reason).
Proof.
  unfold websocket_close. apply keeps_bind; [apply keeps_modify; reflexivity|]. intros _.
  apply keeps_withSocket. intros s w _. cbv zeta.
  destruct (deepgramWs (data s)) as [u|]; [|reflexivity].
  apply keeps_at, keeps_withUpstream. intros up w' _.
  destruct (readyState up); try reflexivity. apply shape_WebSocket_close.
Qed.

Lemma shape_websocket_message (ws : nat) (message : Message) :
  keeps shape (websocket_message ws message).
Proof.
  intros w. rewrite websocket_message_result. cbn [snd].
  destruct (openUpstream w ws) as [[u up]|]; reflexivity.
Qed.

Lemma shape_ServerWebSocket_close (ws : nat) (code : option Z) (reason : option string) :
  keeps shape (ServerWebSocket_close ws code reason).
Proof.
  unfold ServerWebSocket_close. apply keeps_bind; [apply keeps_modify; reflexivity|].
  intros _. destruct (ws_close_throws ws); [apply keeps_throw|].
  apply keeps_withSocket. intros s w Hs.
  destruct (status s); try reflexivity.
  unfold modify, mbind, M_bind.
  destruct close_handler_sync; [rewrite shape_websocket_close|cbn [snd mret M_ret]];
    apply (shape_client_update w ws s); auto.
Qed.

Lemma shape_peerClosed (ws : nat) (code : Z) (reason : string) :
  keeps shape (peerClosed ws code reason).
Proof.
  unfold peerClosed. apply keeps_withSocket. intros s w Hs.
  destruct (status s); try reflexivity.
  apply (shape_client_update w ws s); auto.
Qed.

Lemma shape_upstreamBecomes (u : nat) (r : ReadyState) : keeps shape (upstreamBecomes u r).
Proof.
  unfold upstreamBecomes. apply keeps_withUpstream. intros up w Hup.
  apply (shape_upstream_update w u up); auto.
Qed.

Lemma shape_onmessage (u ws : nat) (m : Message) : keeps shape (deepgramWs_onmessage u ws m).
Proof.
  unfold deepgramWs_onmessage. apply keeps_bind.
  - apply keeps_withUpstream. intros up w Hup. apply (shape_upstream_update w u up); auto.
  - intros _. unfold ServerWebSocket_send. keeps_steps.
Qed.

Lemma keeps_Set_forEach {B : Type} (f : World -> B) (snapshot : list nat) (k : nat -> M unit) :
  (forall x, keeps f (k x)) -> keeps f (Set_forEach snapshot k).
Proof.
  intros Hk. induction snapshot as [|x rest IH]; cbn [Set_forEach]; keeps_steps; auto.
Qed.

Lemma shape_gracefulShutdown (signal : string) : keeps shape (gracefulShutdown signal).
Proof.
  unfold gracefulShutdown. apply keeps_bind; [apply keeps_gets|]. intros members.
  apply keeps_bind.
  - apply keeps_Set_forEach. intros x. apply keeps_try_catch;
      [apply shape_ServerWebSocket_close | apply keeps_ret].
  - intros _. unfold call. keeps_steps.
Qed.

(** A turn of the event loop either leaves the sessions as they are, or
    it is an accepted upgrade and adds one session at the end. *)
Lemma step_shape (w : World) (e : Event) :
  shape (step w e) = shape w
  \/ exists q,
       sessionData (step w e) =
         sessionData w ++ [{| queryParams := q; deepgramWs := Some (length (upstreamSockets w)) |}]
       /\ upstreamLinks (step w e) =
            upstreamLinks w ++ [(buildDeepgramUrl q, Some (length (clientSockets w)))].
Proof.
  unfold step. destruct (exitStatus w); [left; reflexivity|].
  destruct e as [now req|ws m|ws code reason|u|u m|u|u code reason|pe]; cbn [dispatch].
  - unfold exec, mbind, M_bind, gets. destruct (accepting w); [|left; reflexivity].
    destruct (fetch_cases now req w) as [[r ->]|(p & Hpath & Hhs & Hvalid & ->)];
      [left; reflexivity|].
    destruct (server_upgrade_accepted req
                {| queryParams := urlSearchParams req; deepgramWs := None |} p w Hhs)
      as (w' & -> & _ & Hus & Hcs & _).
    right. exists (urlSearchParams req). cbn [snd mret M_ret queryParams] in *.
    unfold sessionData, upstreamLinks. rewrite Hus, Hcs, !fmap_app. split; reflexivity.
  - left. apply shape_websocket_message.
  - left. apply keeps_at, keeps_bind; [apply shape_peerClosed|].
    intros _. apply shape_websocket_close.
  - left. apply keeps_at, keeps_withUpstream. intros up w0 _.
    destruct (readyState up); try reflexivity.
    apply keeps_at, keeps_bind; [apply shape_upstreamBecomes|]. intros _.
    apply keeps_withUpstream. intros up' w1 _. destruct (listeners up'); reflexivity.
  - left. apply keeps_at, keeps_withUpstream. intros up w0 _.
    destruct (listeners up); [apply shape_onmessage | reflexivity].
  - left. apply keeps_at, keeps_withUpstream. intros up w0 _.
    destruct (listeners up); [|reflexivity].
    apply keeps_at, keeps_try_catch; [apply shape_ServerWebSocket_close | apply keeps_ret].
  - left. apply keeps_at, keeps_bind; [apply shape_upstreamBecomes|]. intros _.
    apply keeps_withUpstream. intros up w0 _.
    destruct (listeners up); [|reflexivity].
    apply keeps_at, keeps_try_catch; [apply shape_ServerWebSocket_close | apply keeps_ret].
  - left. destruct pe; apply shape_gracefulShutdown.
Qed.

Lemma step_paired (w : World) (e : Event) : pairedSessions w -> pairedSessions (step w e).
Proof.
  intros [Hlen Hpair]. unfold pairedSessions.
  destruct (step_shape w e) as [Hsame|(q & Hd & Hl)].
  - unfold sessionShape in Hsame. injection Hsame as -> ->. split; assumption.
  - rewrite Hd, Hl.
    assert (Hcs : length (clientSockets w) = length (sessionData w))
      by (unfold sessionData; rewrite length_fmap; reflexivity).
    assert (Hus : length (upstreamSockets w) = length (upstreamLinks w))
      by (unfold upstreamLinks; rewrite length_fmap; reflexivity).
    split; [rewrite !length_app, Hlen; reflexivity|].
    intros i d Hi.
    apply lookup_app_Some in Hi as [Hi'|[Hge Hi']].
    + destruct (Hpair i d Hi') as [Hu Hlink]. split; [exact Hu|].
      apply lookup_app_l_Some. exact Hlink.
    + destruct (i - length (sessionData w))%nat as [|n] eqn:Hn; [|destruct n; discriminate].
      injection Hi' as <-. cbn [deepgramWs queryParams].
      assert (i = length (sessionData w)) as -> by lia.
      split; [congruence|].
      rewrite Hcs. apply list_lookup_middle. exact Hlen.
Qed.

Lemma run_paired (events : list Event) (w : World) :
  pairedSessions w -> pairedSessions (run w events).
Proof.
  revert w. induction events as [|e events IH]; intros w Hw; [exact Hw|].
  cbn [run List.fold_left]. apply IH, step_paired, Hw.
Qed.

Lemma initial_paired : pairedSessions initialWorld.
Proof. split; [reflexivity|]. intros i d Hi. destruct i; discriminate. Qed.

(** X7. In every world the server can reach, each client socket has an
    upstream socket of its own: the client's [ws.data.deepgramWs] is that
    socket, its listeners hold that client and no other, and its URL is
    the one built from that client's query parameters; no upstream socket
    is shared by two sessions or left without a session. *)
Theorem sessions_are_paired (events : list Event) :
  let w := run initialWorld events in
  length (clientSockets w) = length (upstreamSockets w)
  /\ (forall ws s, clientSockets w !! ws = Some s ->
        exists u up,
          deepgramWs (data s) = Some u
          /\ upstreamSockets w !! u = Some up
          /\ listeners up = Some ws
          /\ url up = buildDeepgramUrl (queryParams (data s)))
  /\ (forall u up, upstreamSockets w !! u = Some up ->
        exists ws s,
          listeners up = Some ws
          /\ clientSockets w !! ws = Some s
          /\ deepgramWs (data s) = Some u)
  /\ (forall ws1 ws2 s1 s2 u,
        clientSockets w !! ws1 = Some s1 -> clientSockets w !! ws2 = Some s2 ->
        deepgramWs (data s1) = Some u -> deepgramWs (data s2) = Some u -> ws1 = ws2).
Proof.
  cbv zeta. destruct (run_paired events initialWorld initial_paired) as [Hlen Hpair].
  set (w := run initialWorld events) in *.
  unfold sessionData, upstreamLinks in *. rewrite !length_fmap in Hlen.
  assert (Hclient : forall ws s, clientSockets w !! ws = Some s ->
            deepgramWs (data s) = Some ws
            /\ exists up, upstreamSockets w !! ws = Some up /\ listeners up = Some ws
                          /\ url up = buildDeepgramUrl (queryParams (data s))).
  { intros ws s Hs.
    destruct (Hpair ws (data s)) as [Hu Hlink]; [rewrite list_lookup_fmap, Hs; reflexivity|].
    split; [exact Hu|].
    rewrite list_lookup_fmap in Hlink.
    destruct (upstreamSockets w !! ws) as [up|]; [|discriminate].
    injection Hlink as Hurl Hl. eauto. }
  split; [exact Hlen|]. split; [|split].
  - intros ws s Hs. destruct (Hclient ws s Hs) as (Hu & up & Hup & Hl & Hurl). eauto 10.
  - intros u up Hup.
    assert (Hlt : (u < length (clientSockets w))%nat)
      by (rewrite Hlen; eapply lookup_lt_Some; eauto).
    destruct (lookup_lt_is_Some_2 _ _ Hlt) as [s Hs].
    destruct (Hclient u s Hs) as (Hu & up' & Hup' & Hl & _).
    exists u, s. rewrite Hup in Hup'. injection Hup' as <-. auto.
  - intros ws1 ws2 s1 s2 u Hs1 Hs2 Hu1 Hu2.
    destruct (Hclient ws1 s1 Hs1) as [Hd1 _], (Hclient ws2 s2 Hs2) as [Hd2 _]. congruence.
Qed.

End Sessions.

(** ** Forwarding *)

Section Forwarding.
Context `{Env}.

Ltac unfold_m :=
  unfold exec, withListener, upstreamBecomes, peerClosed, withSocket, withUpstream,
    call, modify, gets, throw, try_catch, mbind, M_bind, mret, M_ret in *.

Ltac fields :=
  cbn [activeConnections clientSockets upstreamSockets accepting exitStatus calls
       with_activeConnections with_clientSockets with_upstreamSockets with_accepting
       with_exitStatus with_call] in *.

(** The turn of an upstream message: the count goes up and the message is
    handed to [ws.send], whether or not that throws. *)
Lemma step_upstream_message (w : World) (u ws : nat) (up : UpstreamWs) (m : Message) :
  exitStatus w = None ->
  upstreamSockets w !! u = Some up ->
  listeners up = Some ws ->
  step w (EvUpstreamMessage u m) =
  with_call (WsSend ws m) (with_upstreamSockets (fun l => <[u := count_message up]> l) w).
Proof.
  intros Halive Hup Hl. unfold step. rewrite Halive. cbn [dispatch].
  unfold deepgramWs_onmessage, ServerWebSocket_send. unfold_m.
  rewrite Hup, Hl, Hup. fields. destruct (ws_send_throws ws); reflexivity.
Qed.

(** The turn of a client message while the upstream socket is open. *)
Lemma step_client_message (w : World) (ws u : nat) (up : UpstreamWs) (m : Message) :
  exitStatus w = None ->
  openUpstream w ws = Some (u, up) ->
  step w (EvClientMessage ws m) = with_call (UpstreamSend u m) w.
Proof.
  intros Halive Hopen. unfold step. rewrite Halive. cbn [dispatch]. unfold exec.
  rewrite websocket_message_result, Hopen. reflexivity.
Qed.

(** X8. Messages from an upstream socket go to the client socket of its
    session one [ws.send] each, unchanged (text stays text, binary stays
    binary) and in the order they arrived, with nothing else called in
    between; a [send] that throws stops nothing; the sockets' states and
    the registry are untouched and the message count goes up by the number
    of messages. *)
Theorem upstream_messages_forwarded_in_order
    (ms : list Message) (w : World) (u ws : nat) (up : UpstreamWs) :
  exitStatus w = None ->
  upstreamSockets w !! u = Some up ->
  listeners up = Some ws ->
  let w' := run w (List.map (EvUpstreamMessage u) ms) in
  calls w' = calls w ++ List.map (WsSend ws) ms
  /\ clientSockets w' = clientSockets w
  /\ activeConnections w' = activeConnections w
  /\ readyState <$> upstreamSockets w' = readyState <$> upstreamSockets w
  /\ deepgramMessageCount <$> upstreamSockets w' !! u
     = Some (deepgramMessageCount up + length ms)%nat.
Proof.
  revert w up. induction ms as [|m ms IH]; intros w up Halive Hup Hl; cbv zeta.
  - cbn [List.map run List.fold_left length]. rewrite app_nil_r, Hup, Nat.add_0_r.
    repeat split; reflexivity.
  - cbn [List.map run List.fold_left length].
    rewrite (step_upstream_message w u ws up m Halive Hup Hl).
    assert (Hlt : (u < length (upstreamSockets w))%nat) by (eapply lookup_lt_Some; eauto).
    set (w1 := with_call (WsSend ws m)
                 (with_upstreamSockets (fun l => <[u := count_message up]> l) w)).
    assert (Halive1 : exitStatus w1 = None) by exact Halive.
    assert (Hup1 : upstreamSockets w1 !! u = Some (count_message up))
      by (apply list_lookup_insert_eq; exact Hlt).
    destruct (IH w1 (count_message up) Halive1 Hup1 Hl) as (Hcalls & Hcs & Hreg & Hrs & Hcount).
    unfold run in *. rewrite Hcalls, Hcs, Hreg, Hrs, Hcount. subst w1. fields.
    rewrite <- app_assoc. cbn [app deepgramMessageCount count_message].
    repeat split; try reflexivity.
    + rewrite list_fmap_insert. apply list_insert_id.
      rewrite list_lookup_fmap, Hup. reflexivity.
    + f_equal. lia.
Qed.

(** X9. While the upstream socket of a session is open, the messages of its
    client go to that socket one [send] each, unchanged and in the order
    they arrived, and nothing else in the world changes. *)
Theorem client_messages_forwarded_in_order
    (ms : list Message) (w : World) (ws u : nat) (up : UpstreamWs) :
  exitStatus w = None ->
  openUpstream w ws = Some (u, up) ->
  let w' := run w (List.map (EvClientMessage ws) ms) in
  calls w' = calls w ++ List.map (UpstreamSend u) ms
  /\ clientSockets w' = clientSockets w
  /\ upstreamSockets w' = upstreamSockets w
  /\ activeConnections w' = activeConnections w.
Proof.
  revert w. induction ms as [|m ms IH]; intros w Halive Hopen; cbv zeta.
  - cbn [List.map run List.fold_left]. rewrite app_nil_r. repeat split; reflexivity.
  - cbn [List.map run List.fold_left].
    rewrite (step_client_message w ws u up m Halive Hopen).
    specialize (IH (with_call (UpstreamSend u m) w) Halive Hopen). cbv zeta in IH.
    destruct IH as (Hcalls & Hcs & Hus & Hreg). unfold run in *.
    rewrite Hcalls, Hcs, Hus, Hreg. fields. rewrite <- app_assoc.
    repeat split; reflexivity.
Qed.

(** X10. When an upstream socket reports an error, the relay closes the
    client socket of its session with code 1011 and the reason
    [Deepgram connection error]; it closes no other client socket, opens
    no new upstream connection and leaves the upstream socket to its own
    close; a client socket that was open, and whose [close] does not
    throw, is then closed with that code and reason. *)
Theorem upstream_error_closes_client
    (w : World) (u ws : nat) (up : UpstreamWs) :
  exitStatus w = None ->
  upstreamSockets w !! u = Some up ->
  listeners up = Some ws ->
  let w' := step w (EvUpstreamError u) in
  (exists extra,
     calls w' = calls w ++ WsClose ws (Some 1011%Z) (Some "Deepgram connection error") :: extra
     /\ (extra = [] \/ exists u', extra = [UpstreamClose u' 1000 "Client disconnected"]))
  /\ connectionsInitiated w' = connectionsInitiated w
  /\ length (upstreamSockets w') = length (upstreamSockets w)
  /\ (ws_close_throws ws = false ->
      forall s, clientSockets w !! ws = Some s -> status s = WsOpen ->
        exists s', clientSockets w' !! ws = Some s'
                   /\ status s' = WsClosedByServer (Some 1011%Z)
                                                   (Some "Deepgram connection error")).
Proof.
  intros Halive Hup Hl. cbv zeta.
  assert (Hconn : connectionsInitiated (step w (EvUpstreamError u)) = connectionsInitiated w).
  { destruct (step_connections w (EvUpstreamError u)) as [Hsame|(? & ? & ? & Hreq & _)];
      [exact Hsame | discriminate]. }
  revert Hconn. unfold step. rewrite Halive. cbn [dispatch]. unfold deepgramWs_onerror.
  unfold exec, withListener, withUpstream, mbind, M_bind, gets. rewrite Hup, Hl.
  destruct (closeClient_result w ws (Some 1011%Z) (Some "Deepgram connection error"))
    as (w' & -> & Hcalls & _ & _ & Hlen & _ & _ & _ & Hopen).
  cbn [snd]. intros Hconn. split; [exact Hcalls|]. split; [exact Hconn|].
  split; [exact Hlen|].
  intros Hthrows s Hs Hst. destruct (Hopen Hthrows s Hs Hst) as [Hs' _].
  eexists. split; [exact Hs'|]. reflexivity.
Qed.

(** What [try { ws.close(...) } catch {}] calls: that close, and then at
    most the close of an upstream socket. *)
Lemma closeQuietly_calls (w : World) (ws : nat) (code : option Z) (reason : option string) :
  exists new,
    calls (snd (try_catch (ServerWebSocket_close ws code reason) (mret tt) w)) = calls w ++ new
    /\ Forall (fun c => match c with UpstreamSend _ _ | WsSend _ _ => False | _ => True end) new.
Proof.
  destruct (closeClient_result w ws code reason) as (w' & -> & (extra & Hcalls & Hextra) & _).
  cbn [snd]. eexists. split; [exact Hcalls|].
  destruct Hextra as [->|[u ->]]; repeat constructor.
Qed.

(** X11. The relay sends nothing of its own making. In any turn of the
    event loop, a frame handed to an upstream socket is the client message
    of that turn, going to the open upstream socket of that client; a
    frame handed to a client socket is the upstream message of that turn,
    going to the client that the upstream socket belongs to. *)
Theorem relay_sends_only_what_it_receives (w : World) (e : Event) :
  exists new,
    calls (step w e) = calls w ++ new
    /\ (forall u m, In (UpstreamSend u m) new ->
          exists ws up, e = EvClientMessage ws m /\ openUpstream w ws = Some (u, up))
    /\ (forall ws m, In (WsSend ws m) new ->
          exists u up, e = EvUpstreamMessage u m
                       /\ upstreamSockets w !! u = Some up /\ listeners up = Some ws).
Proof.
  assert (Hnone : forall new,
    Forall (fun c => match c with UpstreamSend _ _ | WsSend _ _ => False | _ => True end) new ->
    (forall u m, In (UpstreamSend u m) new ->
       exists ws up, e = EvClientMessage ws m /\ openUpstream w ws = Some (u, up))
    /\ (forall ws m, In (WsSend ws m) new ->
          exists u up, e = EvUpstreamMessage u m
                       /\ upstreamSockets w !! u = Some up /\ listeners up = Some ws)).
  { intros new Hnew. rewrite List.Forall_forall in Hnew.
    split; intros ? ? Hin; destruct (Hnew _ Hin). }
  assert (Hnil : exists new, calls w = calls w ++ new
      /\ (forall u m, In (UpstreamSend u m) new ->
            exists ws up, e = EvClientMessage ws m /\ openUpstream w ws = Some (u, up))
      /\ (forall ws m, In (WsSend ws m) new ->
            exists u up, e = EvUpstreamMessage u m
                         /\ upstreamSockets w !! u = Some up /\ listeners up = Some ws)).
  { exists []. split; [rewrite app_nil_r; reflexivity | apply Hnone; constructor]. }
  unfold step. destruct (exitStatus w) eqn:Halive; [exact Hnil|].
  destruct e as [now req|ws m|ws code reason|u|u m|u|u code reason|pe]; cbn [dispatch].
  - unfold exec, mbind, M_bind, gets. destruct (accepting w); [|exact Hnil].
    destruct (fetch_cases now req w) as [[r ->]|(p & Hpath & Hhs & Hvalid & ->)];
      [exact Hnil|].
    destruct (server_upgrade_accepted req
                {| queryParams := urlSearchParams req; deepgramWs := None |} p w Hhs)
      as (w' & -> & Hcalls & _).
    cbn [snd mret M_ret]. eexists. split; [exact Hcalls|]. apply Hnone. repeat constructor.
  - unfold exec. rewrite websocket_message_result. cbn [snd].
    destruct (openUpstream w ws) as [[u up]|] eqn:Hopen; [|exact Hnil].
    exists [UpstreamSend u m]. split; [reflexivity|]. split.
    + intros u' m' [[= <- <-]|[]]. eauto.
    + intros ws' m' [Heq|[]]. discriminate.
  - unfold exec, mbind, M_bind.
    destruct (peerClosed_result w ws code reason) as (w1 & -> & _ & _ & _ & Hcalls1 & _).
    rewrite websocket_close_result. cbn [snd].
    destruct (openUpstream w1 ws) as [[u up]|]; fields; rewrite Hcalls1; [|exact Hnil].
    eexists. split; [reflexivity|]. apply Hnone. repeat constructor.
  - exists []. rewrite app_nil_r. split; [|apply Hnone; constructor].
    apply (keeps_at calls). apply keeps_withUpstream. intros up w0 _.
    destruct (readyState up); try reflexivity.
    apply keeps_at, keeps_bind.
    + apply keeps_withUpstream. intros up' w1 _. reflexivity.
    + intros _. apply keeps_withUpstream. intros up' w1 _. destruct (listeners up'); reflexivity.
  - destruct (upstreamSockets w !! u) as [up|] eqn:Hup.
    2:{ unfold exec, withListener, withUpstream, mbind, M_bind, gets. rewrite Hup. exact Hnil. }
    destruct (listeners up) as [ws|] eqn:Hl.
    2:{ unfold exec, withListener, withUpstream, mbind, M_bind, gets. rewrite Hup, Hl.
        exact Hnil. }
    pose proof (step_upstream_message w u ws up m Halive Hup Hl) as Hstep.
    unfold step in Hstep. rewrite Halive in Hstep. cbn [dispatch] in Hstep. rewrite Hstep.
    exists [WsSend ws m]. split; [reflexivity|]. split.
    + intros u' m' [Heq|[]]. discriminate.
    + intros ws' m' [[= <- <-]|[]]. eauto.
  - unfold exec, withListener, withUpstream, mbind, M_bind, gets.
    destruct (upstreamSockets w !! u) as [up|]; [|exact Hnil].
    destruct (listeners up) as [ws|]; [|exact Hnil].
    destruct (closeQuietly_calls w ws (Some 1011%Z) (Some "Deepgram connection error"))
      as (new & Hcalls & Hnew).
    exists new. split; [exact Hcalls | apply Hnone; exact Hnew].
  - unfold exec, withListener, upstreamBecomes, withUpstream, mbind, M_bind, gets, modify.
    destruct (upstreamSockets w !! u) as [up|] eqn:Hup;
      [|unfold mret, M_ret; rewrite Hup; exact Hnil].
    fields.
    destruct (<[u := set_readyState CLOSED up]> (upstreamSockets w) !! u) as [up'|];
      [|exact Hnil].
    destruct (listeners up') as [ws|]; [|exact Hnil].
    unfold deepgramWs_onclose.
    match goal with |- context [try_catch _ _ ?w0] =>
      destruct (closeQuietly_calls w0 ws (Some code) (Some reason)) as (new & Hcalls & Hnew)
    end.
    exists new. split; [exact Hcalls | apply Hnone; exact Hnew].
  - assert (Hsame : process_on pe w = gracefulShutdown "SIGTERM" w) by (destruct pe; reflexivity).
    unfold exec. rewrite Hsame. unfold gracefulShutdown, mbind, M_bind, gets.
    destruct (forEach_closeQuietly (activeConnections w) w)
      as (w1 & mid & -> & Hcalls & Hmid & _).
    unfold call, modify. cbn [snd]. fields.
    exists (mid ++ [ServerStop; ProcessExit 0]). split.
    + rewrite Hcalls, <- !app_assoc. reflexivity.
    + apply Hnone. apply List.Forall_app. split; [|repeat constructor].
      apply List.Forall_forall. intros c Hc.
      destruct (Hmid c Hc) as [(ws & -> & _)|[u ->]]; exact I.
Qed.

End Forwarding.

(** ** The registry *)

Section Registry.
Context `{Env}.

Ltac unfold_m :=
  unfold exec, withListener, upstreamBecomes, peerClosed, withSocket, withUpstream,
    call, modify, gets, throw, try_catch, mbind, M_bind, mret, M_ret in *.

Ltac fields :=
  cbn [activeConnections clientSockets upstreamSockets accepting exitStatus calls
       with_activeConnections with_clientSockets with_upstreamSockets with_accepting
       with_exitStatus with_call] in *.

Lemma NoDup_Set_delete (x : nat) (s : list nat) : List.NoDup s -> List.NoDup (Set_delete x s).
Proof. apply List.NoDup_filter. Qed.

Lemma NoDup_Set_add (x : nat) (s : list nat) : List.NoDup s -> List.NoDup (Set_add x s).
Proof.
  intros Hs. unfold Set_add. destruct (existsb (Nat.eqb x) s) eqn:Hhas; [exact Hs|].
  apply List.NoDup_app; [exact Hs | repeat constructor; intros [] | ].
  intros y Hy [Heq|[]]. subst y.
  assert (Hx : existsb (Nat.eqb x) s = true)
    by (apply existsb_exists; exists x; split; [exact Hy | apply Nat.eqb_refl]).
  congruence.
Qed.

(** Every effect a step can have keeps the registry in order. *)
Lemma registryEffect_ok (w w' : World) : registryOk w -> registryEffect w w' -> registryOk w'.
Proof.
  intros (Hnd & Hin & Hopen & Hsync) Heff. unfold registryOk.
  destruct Heff as [[Hst Hreg]|[(ws & st & Hws & Hne & Hst & Hreg)|[(ws & Hws & Hst & Hreg)|
                    [Hst Hreg]]]].
  - rewrite Hst, Hreg. auto.
  - assert (Hlt : (ws < length (statuses w))%nat) by (eapply lookup_lt_Some; eauto).
    assert (Hat : forall x, statuses w' !! x = Some WsOpen ->
                            x <> ws /\ statuses w !! x = Some WsOpen).
    { intros x Hx. rewrite Hst in Hx. destruct (Nat.eq_dec x ws) as [->|Hxw].
      - rewrite list_lookup_insert_eq in Hx by exact Hlt. congruence.
      - rewrite list_lookup_insert_ne in Hx by congruence. auto. }
    rewrite Hst, length_insert.
    destruct Hreg as [Hreg|[Hdef Hreg]]; rewrite Hreg.
    + split; [apply NoDup_Set_delete, Hnd|]. split; [|split].
      * intros x Hx. apply Set_delete_In in Hx. apply Hin. tauto.
      * intros x Hx. rewrite <- Hst in Hx. destruct (Hat x Hx) as [Hxw Hxo].
        apply Set_delete_In. auto.
      * intros Hs x Hx. apply Set_delete_In in Hx as [Hx Hxw].
        rewrite list_lookup_insert_ne by congruence. auto.
    + split; [exact Hnd|]. split; [exact Hin|]. split; [|congruence].
      intros x Hx. rewrite <- Hst in Hx. destruct (Hat x Hx) as [_ Hxo]. auto.
  - rewrite Hst, Hreg.
    split; [apply NoDup_Set_delete, Hnd|]. split; [|split].
    + intros x Hx. apply Set_delete_In in Hx. apply Hin. tauto.
    + intros x Hx. apply Set_delete_In. split; [auto|]. congruence.
    + intros Hs x Hx. apply Set_delete_In in Hx as [Hx _]. auto.
  - rewrite Hst, Hreg, length_app. cbn [length].
    split; [apply NoDup_Set_add, Hnd|]. split; [|split].
    + intros x Hx. apply Set_add_In in Hx as [->|Hx]; [lia|]. specialize (Hin x Hx). lia.
    + intros x Hx. apply Set_add_In.
      apply lookup_app_Some in Hx as [Hx|[Hge Hx]]; [right; auto|].
      left. destruct (x - length (statuses w))%nat as [|n] eqn:Hn; [lia|].
      destruct n; discriminate.
    + intros Hs x Hx. apply Set_add_In in Hx as [->|Hx].
      * apply list_lookup_middle. reflexivity.
      * apply lookup_app_l_Some. auto.
Qed.

(** What [try { ws.close(...) } catch {}] does to the registry and to the
    statuses. *)
Lemma closeQuietly_effect (w : World) (ws : nat) (code : option Z) (reason : option string) :
  registryEffect w (snd (try_catch (ServerWebSocket_close ws code reason) (mret tt) w)).
Proof.
  unfold ServerWebSocket_close, registryEffect, statuses. unfold_m. fields.
  destruct (ws_close_throws ws); fields; [left; split; reflexivity|].
  destruct (clientSockets w !! ws) as [s|] eqn:Hs; fields; [|left; split; reflexivity].
  destruct (status s) eqn:Hst; fields; try (left; split; reflexivity).
  right. left. exists ws, (closeFrame code reason).
  split; [rewrite list_lookup_fmap, Hs; cbn; congruence|]. split; [apply closeFrame_closed|].
  destruct close_handler_sync; fields.
  - rewrite websocket_close_result.
    match goal with |- context [openUpstream ?w0 ws] =>
      destruct (openUpstream w0 ws) as [[u up]|] end; cbn [snd]; fields;
      (split; [etransitivity; [apply list_fmap_insert | reflexivity] | left; reflexivity]).
  - split; [etransitivity; [apply list_fmap_insert | reflexivity] | right; split; reflexivity].
Qed.

Lemma client_close_effect (w : World) (ws : nat) (code : Z) (reason : string) :
  registryEffect w (snd ((peerClosed ws code reason ;; websocket_close ws code reason) w)).
Proof.
  unfold registryEffect, statuses, peerClosed. unfold_m.
  destruct (clientSockets w !! ws) as [s|] eqn:Hs.
  2:{ rewrite websocket_close_result. right. right. left. exists ws.
      split; [rewrite list_lookup_fmap, Hs; discriminate|].
      destruct (openUpstream w ws) as [[u up]|]; split; reflexivity. }
  destruct (status s) eqn:Hst; rewrite websocket_close_result; cbn [snd].
  - right. left. exists ws, (WsClosedByPeer code reason).
    split; [rewrite list_lookup_fmap, Hs; cbn; congruence|]. split; [discriminate|].
    match goal with |- context [openUpstream ?w0 ws] =>
      destruct (openUpstream w0 ws) as [[u up]|] end; fields;
      (split; [etransitivity; [apply list_fmap_insert | reflexivity] | left; reflexivity]).
  - right. right. left. exists ws.
    split; [rewrite list_lookup_fmap, Hs; cbn; congruence|].
    destruct (openUpstream w ws) as [[u up]|]; split; reflexivity.
  - right. right. left. exists ws.
    split; [rewrite list_lookup_fmap, Hs; cbn; congruence|].
    destruct (openUpstream w ws) as [[u up]|]; split; reflexivity.
Qed.

Lemma preserves_bind {A B : Type} (I : World -> Prop) (m : M A) (k : A -> M B) :
  preserves I m -> (forall a, preserves I (k a)) -> preserves I (m ≫= k).
Proof.
  intros Hm Hk w Hw. unfold mbind, M_bind. specialize (Hm w Hw).
  destruct (m w) as [[a|] w1]; cbn [snd] in *; [apply Hk|]; exact Hm.
Qed.

Lemma preserves_keeps {A : Type} (m : M A) : keeps registryView m -> preserves registryOk m.
Proof.
  intros Hm w Hw. specialize (Hm w). unfold registryView in Hm. injection Hm as Hst Hreg.
  apply (registryEffect_ok w); [exact Hw|]. left. auto.
Qed.

Lemma preserves_effect {A : Type} (m : M A) :
  (forall w, registryEffect w (snd (m w))) -> preserves registryOk m.
Proof. intros Hm w Hw. apply (registryEffect_ok w); auto. Qed.

Ltac keeps_view :=
  repeat first
    [ apply keeps_ret | apply keeps_throw | apply keeps_gets
    | apply keeps_bind; [|intros ?]
    | apply keeps_try_catch
    | apply keeps_modify; intros ?; reflexivity
    | apply keeps_withSocket; intros ? ? _; apply keeps_at; cbv beta
    | apply keeps_withUpstream; intros ? ? _; apply keeps_at; cbv beta
    | progress cbv zeta
    | match goal with
      | |- keeps _ (match ?x with _ => _ end) => destruct x
      | |- keeps _ (if ?b then _ else _) => destruct b
      end ].

Lemma preserves_Set_forEach (I : World -> Prop) (snapshot : list nat) (k : nat -> M unit) :
  (forall x, preserves I (k x)) -> preserves I (Set_forEach snapshot k).
Proof.
  intros Hk. induction snapshot as [|x rest IH]; cbn [Set_forEach]; [intros w Hw; exact Hw|].
  apply preserves_bind; [intros w Hw; exact Hw|]. intros live.
  apply preserves_bind; [|intros _; exact IH].
  destruct (Set_has x live); [apply Hk | intros w Hw; exact Hw].
Qed.

(** Every turn of the event loop keeps the registry in order. *)
Lemma step_registryOk (w : World) (e : Event) : registryOk w -> registryOk (step w e).
Proof.
  unfold step. destruct (exitStatus w); [auto|].
  destruct e as [now req|ws m|ws code reason|u|u m|u|u code reason|pe]; cbn [dispatch].
  - intros Hw. unfold exec, mbind, M_bind, gets. destruct (accepting w); [|exact Hw].
    destruct (fetch_cases now req w) as [[r ->]|(p & Hpath & Hhs & Hvalid & ->)]; [exact Hw|].
    destruct (server_upgrade_accepted req
                {| queryParams := urlSearchParams req; deepgramWs := None |} p w Hhs)
      as (w' & -> & _ & _ & Hcs & Hreg & _).
    cbn [snd mret M_ret]. apply (registryEffect_ok w); [exact Hw|].
    right. right. right. unfold statuses. rewrite Hcs, Hreg, fmap_app, length_fmap.
    split; reflexivity.
  - apply preserves_keeps. intros w0. rewrite websocket_message_result. cbn [snd].
    destruct (openUpstream w0 ws) as [[u up]|]; reflexivity.
  - apply preserves_effect. intros w0. apply client_close_effect.
  - apply preserves_keeps. unfold upstreamBecomes, withListener, deepgramWs_onopen. keeps_view.
  - apply preserves_keeps.
    unfold withListener, deepgramWs_onmessage, ServerWebSocket_send, call. keeps_view.
  - intros Hw. unfold exec, withListener, withUpstream, mbind, M_bind, gets.
    destruct (upstreamSockets w !! u) as [up|]; [|exact Hw].
    destruct (listeners up) as [ws|]; [|exact Hw].
    apply (registryEffect_ok w); [exact Hw | apply closeQuietly_effect].
  - apply preserves_bind.
    + apply preserves_keeps. unfold upstreamBecomes. keeps_view.
    + intros _ w0 Hw0. unfold withListener, withUpstream, mbind, M_bind, gets.
      destruct (upstreamSockets w0 !! u) as [up|]; [|exact Hw0].
      destruct (listeners up) as [ws|]; [|exact Hw0].
      apply (registryEffect_ok w0); [exact Hw0 | apply closeQuietly_effect].
  - assert (Hsame : process_on pe = gracefulShutdown "SIGTERM") by (destruct pe; reflexivity).
    rewrite Hsame. unfold gracefulShutdown.
    apply preserves_bind; [intros w0 Hw0; exact Hw0|]. intros members.
    apply preserves_bind.
    + apply preserves_Set_forEach. intros x. apply preserves_effect.
      intros w0. apply closeQuietly_effect.
    + intros _. apply preserves_keeps. unfold call. keeps_view.
Qed.

Lemma run_registryOk (events : list Event) (w : World) :
  registryOk w -> registryOk (run w events).
Proof.
  revert w. induction events as [|e events IH]; intros w Hw; [exact Hw|].
  cbn [run List.fold_left]. apply IH, step_registryOk, Hw.
Qed.

Lemma initial_registryOk : registryOk initialWorld.
Proof.
  split; [constructor|]. split; [intros ws []|]. split; [|intros _ ws []].
  intros ws Hws. destruct ws; discriminate.
Qed.

Lemma statuses_lookup (w : World) (ws : nat) (st : WsStatus) :
  statuses w !! ws = Some st <-> exists s, clientSockets w !! ws = Some s /\ status s = st.
Proof.
  unfold statuses. rewrite list_lookup_fmap.
  destruct (clientSockets w !! ws) as [s|]; cbn; split.
  - intros [= <-]. eauto.
  - intros (s' & [= <-] & <-). reflexivity.
  - discriminate.
  - intros (s' & Hs' & _). discriminate.
Qed.

(** Only a process event ends the process. *)
Lemma dispatch_keeps_exitStatus (e : Event) :
  (forall pe, e <> EvProcess pe) -> keeps exitStatus (dispatch e).
Proof.
  destruct e as [now req|ws m|ws code reason|u|u m|u|u code reason|pe]; intros Hpe;
    [..|destruct (Hpe pe eq_refl)]; cbn [dispatch];
    unfold fetch, server_upgrade, websocket_open, new_WebSocket, addEventListeners,
      websocket_message, WebSocket_send, peerClosed, websocket_close, upstreamBecomes,
      withListener, deepgramWs_onopen, deepgramWs_onmessage, deepgramWs_onerror,
      deepgramWs_onclose, ServerWebSocket_send, ServerWebSocket_close, websocket_close,
      WebSocket_close, call;
    keeps_view.
Qed.

(** What holds of a process that has exited, where the runtime runs
    [close] handlers at once and no [close()] throws. *)
Lemma step_exited (w : World) (e : Event) :
  close_handler_sync = true -> (forall ws, ws_close_throws ws = false) ->
  registryOk w ->
  (exitStatus w <> None ->
   exitStatus w = Some 0%Z /\ accepting w = false /\ activeConnections w = []
   /\ exists before, calls w = before ++ [ServerStop; ProcessExit 0]) ->
  exitStatus (step w e) <> None ->
  exitStatus (step w e) = Some 0%Z /\ accepting (step w e) = false
  /\ activeConnections (step w e) = []
  /\ exists before, calls (step w e) = before ++ [ServerStop; ProcessExit 0].
Proof.
  intros Hs Hquiet Hok Hw. unfold step.
  destruct (exitStatus w) as [c|] eqn:Halive; [intros _; cbv iota; rewrite Halive; apply Hw; discriminate|].
  destruct e as [now req|ws m|ws code reason|u|u m|u|u code reason|pe];
    try (intros Hexit; exfalso; apply Hexit;
         match goal with
         | |- exitStatus (exec (dispatch ?e) w) = None =>
             transitivity (exitStatus w); [|exact Halive];
             apply (keeps_at exitStatus (dispatch e) w), dispatch_keeps_exitStatus;
             discriminate
         end).
  intros _. cbn [dispatch]. unfold exec.
  replace (process_on pe w) with (gracefulShutdown "SIGTERM" w) by (destruct pe; reflexivity).
  unfold gracefulShutdown, mbind, M_bind, gets.
  destruct (forEach_closeQuietly (activeConnections w) w)
    as (w1 & mid & Hloop & Hcalls & _ & _ & _ & _ & Hsub & _ & Hsync).
  rewrite Hloop. unfold call, modify. cbn [fst snd]. fields.
  split; [reflexivity|]. split; [reflexivity|]. split.
  - destruct Hok as (_ & _ & _ & Hopen).
    destruct (activeConnections w1) as [|ws rest] eqn:Hreg; [reflexivity|]. exfalso.
    apply (Hsync Hs) with (ws := ws).
    + intros x Hx _. split; [apply Hquiet|]. apply statuses_lookup, (Hopen Hs), Hx.
    + left; reflexivity.
    + apply Hsub. left; reflexivity.
  - exists (calls w1). rewrite <- app_assoc. reflexivity.
Qed.

(** X13. Where the runtime runs [close] handlers at once and no
    [close()] throws, a server that has exited has exited with status 0,
    accepts nothing, has an empty registry and no client socket left open,
    and stopping the server and exiting were the last things it did. *)
Theorem exited_server_holds_no_session (events : list Event) :
  close_handler_sync = true ->
  (forall ws, ws_close_throws ws = false) ->
  let w := run initialWorld events in
  exitStatus w <> None ->
  exitStatus w = Some 0%Z
  /\ accepting w = false
  /\ activeConnections w = []
  /\ (forall ws s, clientSockets w !! ws = Some s -> status s <> WsOpen)
  /\ exists before, calls w = before ++ [ServerStop; ProcessExit 0].
Proof.
  intros Hs Hquiet. cbv zeta.
  assert (Hinv : forall evs w,
            registryOk w ->
            (exitStatus w <> None ->
             exitStatus w = Some 0%Z /\ accepting w = false /\ activeConnections w = []
             /\ exists before, calls w = before ++ [ServerStop; ProcessExit 0]) ->
            registryOk (run w evs)
            /\ (exitStatus (run w evs) <> None ->
                exitStatus (run w evs) = Some 0%Z /\ accepting (run w evs) = false
                /\ activeConnections (run w evs) = []
                /\ exists before, calls (run w evs) = before ++ [ServerStop; ProcessExit 0])).
  { induction evs as [|e evs IH]; intros w Hok Hw; [split; assumption|].
    cbn [run List.fold_left]. apply IH; [apply step_registryOk, Hok|].
    apply step_exited; assumption. }
  destruct (Hinv events initialWorld initial_registryOk) as [Hok Hexited];
    [intros Hexit; destruct Hexit; reflexivity|].
  intros Hexit. destruct (Hexited Hexit) as (H0 & Hacc & Hreg & Hcalls).
  repeat split; try assumption.
  intros ws s Hws Hst. destruct Hok as (_ & _ & Hopen & _).
  assert (Hin : In ws (activeConnections (run initialWorld events)))
    by (apply Hopen, statuses_lookup; eauto).
  rewrite Hreg in Hin. destruct Hin.
Qed.

(** X12. In every world the server can reach, the registry has no member
    twice, every member is a client socket of the server, and every client
    socket that is open is a member: no live session is out of the reach
    of the shutdown. Where the runtime runs [close] handlers at once,
    the members are exactly the open client sockets. *)
Theorem registry_holds_the_open_sockets (events : list Event) :
  let w := run initialWorld events in
  List.NoDup (activeConnections w)
  /\ (forall ws, In ws (activeConnections w) -> exists s, clientSockets w !! ws = Some s)
  /\ (forall ws s, clientSockets w !! ws = Some s -> status s = WsOpen ->
        In ws (activeConnections w))
  /\ (close_handler_sync = true ->
      forall ws, In ws (activeConnections w) ->
        exists s, clientSockets w !! ws = Some s /\ status s = WsOpen).
Proof.
  cbv zeta.
  destruct (run_registryOk events initialWorld initial_registryOk)
    as (Hnd & Hin & Hopen & Hsync).
  split; [exact Hnd|]. split; [|split].
  - intros ws Hws. apply lookup_lt_is_Some_2. specialize (Hin ws Hws).
    unfold statuses in Hin. rewrite length_fmap in Hin. exact Hin.
  - intros ws s Hs Hst. apply Hopen, statuses_lookup. eauto.
  - intros Hs ws Hws. apply statuses_lookup, Hsync; assumption.
Qed.

End Registry.

(** ** The life of a session *)

Section Lifecycle.
Context `{Env}.
Import TrimFacts.

Ltac unfold_m :=
  unfold exec, withListener, upstreamBecomes, peerClosed, withSocket, withUpstream,
    call, modify, gets, throw, try_catch, mbind, M_bind, mret, M_ret in *.

Ltac fields :=
  cbn [activeConnections clientSockets upstreamSockets accepting exitStatus calls
       with_activeConnections with_clientSockets with_upstreamSockets with_accepting
       with_exitStatus with_call] in *.

(** The turn of a request that upgrades. *)
Lemma step_upgrade (now : Z) (req : Request) (w : World) (p : string) :
  exitStatus w = None -> accepting w = true ->
  method req <> "OPTIONS" ->
  pathname req = "/api/live-transcription" ->
  handshake req = true ->
  validateWsToken now (secWebSocketProtocol req) = Some p ->
  step w (EvRequest now req)
  = snd (server_upgrade req {| queryParams := urlSearchParams req; deepgramWs := None |} p w).
Proof.
  intros Halive Hacc Hm Hpath Hhs Hvalid. unfold step. rewrite Halive. cbn [dispatch].
  unfold exec, mbind, M_bind, gets. rewrite Hacc.
  rewrite (fetch_validated now req w p Hm Hpath Hvalid), Hhs. reflexivity.
Qed.

(** The turn in which a connecting upstream socket opens. *)
Lemma step_upstream_open (w : World) (u : nat) (up : UpstreamWs) :
  exitStatus w = None ->
  upstreamSockets w !! u = Some up ->
  readyState up = CONNECTING ->
  step w (EvUpstreamOpen u)
  = with_upstreamSockets (fun l => <[u := set_readyState OPEN up]> l) w.
Proof.
  intros Halive Hup Hr. unfold step. rewrite Halive. cbn [dispatch].
  assert (Hlt : (u < length (upstreamSockets w))%nat) by (eapply lookup_lt_Some; eauto).
  unfold deepgramWs_onopen. unfold_m. rewrite Hup, Hr, Hup. fields.
  rewrite list_lookup_insert_eq by exact Hlt.
  destruct (listeners (set_readyState OPEN up)); reflexivity.
Qed.

Lemma run_app (w : World) (first later : list Event) :
  run w (first ++ later) = run (run w first) later.
Proof. apply fold_left_app. Qed.

Lemma run_client_messages_dropped (ms : list Message) (w : World) (ws : nat) :
  exitStatus w = None ->
  openUpstream w ws = None ->
  run w (List.map (EvClientMessage ws) ms) = w.
Proof.
  intros Halive Hnone. induction ms as [|m ms IH]; [reflexivity|].
  cbn [List.map run List.fold_left]. unfold step at 2. rewrite Halive. cbn [dispatch].
  unfold exec. rewrite websocket_message_result, Hnone. exact IH.
Qed.

Lemma run_client_messages_calls (ms : list Message) (w : World) (ws u : nat) (up : UpstreamWs) :
  exitStatus w = None ->
  openUpstream w ws = Some (u, up) ->
  calls (run w (List.map (EvClientMessage ws) ms)) = calls w ++ List.map (UpstreamSend u) ms.
Proof.
  revert w. induction ms as [|m ms IH]; intros w Halive Hopen.
  - cbn [List.map run List.fold_left]. rewrite app_nil_r. reflexivity.
  - cbn [List.map run List.fold_left].
    rewrite (step_client_message w ws u up m Halive Hopen).
    specialize (IH (with_call (UpstreamSend u m) w) Halive Hopen).
    unfold run in IH. rewrite IH. fields. rewrite <- app_assoc. reflexivity.
Qed.

(** X14. The token that [GET /api/session] hands out opens a session:
    presented as the subprotocol [access_token.<token>] on the
    live-transcription path while it still verifies, it makes [fetch]
    upgrade the request, and the new client socket answers with that same
    subprotocol. (A JWT holds no comma and no white space.) *)
Theorem issued_token_opens_a_session
    (issued now : Z) (upgrade : Request) (w : World) :
  let token := jwt_sign issued SESSION_SECRET JWT_EXPIRY in
  includes token "," = false ->
  trimEnd token = token ->
  jwt_verify token SESSION_SECRET now = true ->
  method upgrade = "GET" ->
  pathname upgrade = "/api/live-transcription" ->
  secWebSocketProtocol upgrade = Some ("access_token." +:+ token) ->
  handshake upgrade = true ->
  body (handleGetSession issued) = JsonBody [("token", token)]
  /\ statusCode (handleGetSession issued) = 200%Z
  /\ exists w',
       fetch now upgrade w = (Returned None, w')
       /\ clientSockets w' =
          clientSockets w ++
          [{| data := {| queryParams := urlSearchParams upgrade;
                         deepgramWs := Some (length (upstreamSockets w)) |};
              protocol := "access_token." +:+ token; status := WsOpen |}].
Proof.
  cbv zeta. intros Hcomma Hend Hverify Hmethod Hpath Hheader Hhs.
  split; [reflexivity|]. split; [reflexivity|].
  set (token := jwt_sign issued SESSION_SECRET JWT_EXPIRY) in *.
  assert (Hvalid : validateWsToken now (secWebSocketProtocol upgrade)
                   = Some ("access_token." +:+ token)).
  { rewrite Hheader. apply validateWsToken_accepts. exists [], [], token.
    repeat split; auto.
    rewrite split_whole.
    - cbn [List.map app]. rewrite (trim_candidate token Hend). reflexivity.
    - rewrite includes_app. cbn [includes Ascii.eqb Bool.eqb orb]. exact Hcomma. }
  assert (Hm : method upgrade <> "OPTIONS") by (rewrite Hmethod; discriminate).
  rewrite (fetch_validated now upgrade w _ Hm Hpath Hvalid), Hhs.
  destruct (server_upgrade_accepted upgrade
              {| queryParams := urlSearchParams upgrade; deepgramWs := None |}
              ("access_token." +:+ token) w Hhs)
    as (w' & Hup & _ & _ & Hcs & _).
  exists w'. rewrite Hup. split; [reflexivity | exact Hcs].
Qed.

(** X15. Audio is relayed only once the upstream socket is open. After an
    upgrade, what the client sends while the upstream socket is still
    connecting is dropped, leaving no trace; once the upstream socket has
    opened, the client's messages go to it in order. Nothing of the early
    messages is sent later. *)
Theorem early_audio_is_dropped
    (now : Z) (req : Request) (w : World) (p : string) (early later : list Message) :
  exitStatus w = None -> accepting w = true ->
  method req <> "OPTIONS" ->
  pathname req = "/api/live-transcription" ->
  handshake req = true ->
  validateWsToken now (secWebSocketProtocol req) = Some p ->
  let ws := length (clientSockets w) in
  let u := length (upstreamSockets w) in
  let session := step w (EvRequest now req) in
  run session (List.map (EvClientMessage ws) early) = session
  /\ calls (run session (List.map (EvClientMessage ws) early
                          ++ EvUpstreamOpen u :: List.map (EvClientMessage ws) later))
     = calls w ++ NewWebSocket u (buildDeepgramUrl (urlSearchParams req))
                  :: List.map (UpstreamSend u) later.
Proof.
  intros Halive Hacc Hm Hpath Hhs Hvalid. cbv zeta.
  rewrite (step_upgrade now req w p Halive Hacc Hm Hpath Hhs Hvalid).
  destruct (server_upgrade_accepted req
              {| queryParams := urlSearchParams req; deepgramWs := None |} p w Hhs)
    as (w1 & -> & Hcalls & Hus & Hcs & _ & _ & Halive1).
  cbn [snd queryParams] in *. rewrite Halive in Halive1.
  assert (Hs1 : clientSockets w1 !! length (clientSockets w)
                = Some {| data := {| queryParams := urlSearchParams req;
                                     deepgramWs := Some (length (upstreamSockets w)) |};
                          protocol := p; status := WsOpen |})
    by (rewrite Hcs; apply lookup_last).
  assert (Hup1 : upstreamSockets w1 !! length (upstreamSockets w)
                 = Some {| url := buildDeepgramUrl (urlSearchParams req);
                           readyState := CONNECTING;
                           listeners := Some (length (clientSockets w));
                           deepgramMessageCount := 0 |})
    by (rewrite Hus; apply lookup_last).
  assert (Hnone : openUpstream w1 (length (clientSockets w)) = None).
  { apply openUpstream_None. intros s u up Hs Hu Hup.
    rewrite Hs1 in Hs. injection Hs as <-. cbn [data deepgramWs] in Hu. injection Hu as <-.
    rewrite Hup1 in Hup. injection Hup as <-. discriminate. }
  assert (Hdropped : run w1 (List.map (EvClientMessage (length (clientSockets w))) early) = w1)
    by (apply run_client_messages_dropped; assumption).
  split; [exact Hdropped|].
  rewrite run_app, Hdropped. cbn [run List.fold_left].
  rewrite (step_upstream_open w1 _ _ Halive1 Hup1 eq_refl).
  match goal with |- calls (List.fold_left step _ ?w0) = _ => set (w2 := w0) end.
  assert (Hopen : openUpstream w2 (length (clientSockets w))
                  = Some (length (upstreamSockets w),
                          set_readyState OPEN
                            {| url := buildDeepgramUrl (urlSearchParams req);
                               readyState := CONNECTING;
                               listeners := Some (length (clientSockets w));
                               deepgramMessageCount := 0 |})).
  { apply openUpstream_Some. eexists. subst w2. fields.
    split; [exact Hs1|]. split; [reflexivity|]. split; [|reflexivity].
    apply list_lookup_insert_eq. eapply lookup_lt_Some; eauto. }
  pose proof (run_client_messages_calls later w2 _ _ _ Halive1 Hopen) as Hlater.
  unfold run in Hlater. rewrite Hlater. subst w2. fields. rewrite Hcalls, <- app_assoc.
  reflexivity.
Qed.

(** X16. The close of an upstream socket is not echoed back to it. In a
    world the server can reach, when the upstream socket of a session
    reports its close, the only call made in that turn is the [close] of
    that session's client socket, with the same code and reason: no
    [close] goes to the upstream socket, which is just left closed; and
    where the [close] handler runs at once, a client socket that was open
    and whose [close()] does not throw leaves the registry in that turn. *)
Theorem upstream_close_is_not_echoed
    (events : list Event) (ws u : nat) (s : ServerWebSocket) (c : Z) (r : string) :
  let w := run initialWorld events in
  exitStatus w = None ->
  clientSockets w !! ws = Some s ->
  deepgramWs (data s) = Some u ->
  let w' := step w (EvUpstreamClose u c r) in
  calls w' = calls w ++ [WsClose ws (Some c) (Some r)]
  /\ readyState <$> upstreamSockets w' = <[u := CLOSED]> (readyState <$> upstreamSockets w)
  /\ (close_handler_sync = true -> ws_close_throws ws = false -> status s = WsOpen ->
      activeConnections w' = Set_delete ws (activeConnections w)).
Proof.
  cbv zeta. intros Halive Hs Hu.
  destruct (run_paired events initialWorld initial_paired) as [_ Hpair].
  set (w := run initialWorld events) in *.
  destruct (Hpair ws (data s)) as [Hu' Hlink];
    [unfold sessionData; rewrite list_lookup_fmap, Hs; reflexivity|].
  assert (u = ws) as -> by congruence. clear Hu'.
  unfold upstreamLinks in Hlink. rewrite list_lookup_fmap in Hlink.
  destruct (upstreamSockets w !! ws) as [up|] eqn:Hup; [|discriminate].
  injection Hlink as _ Hl.
  assert (Hlt : (ws < length (upstreamSockets w))%nat) by (eapply lookup_lt_Some; eauto).
  assert (Hlts : (ws < length (clientSockets w))%nat) by (eapply lookup_lt_Some; eauto).
  unfold step. rewrite Halive. cbn [dispatch].
  unfold deepgramWs_onclose, ServerWebSocket_close.
  unfold exec, withListener, upstreamBecomes, withUpstream, withSocket, call, modify, gets,
    try_catch, throw, mbind, M_bind, mret, M_ret.
  rewrite Hup. fields. rewrite list_lookup_insert_eq by exact Hlt.
  cbn [listeners set_readyState]. rewrite Hl. fields.
  assert (Hstates : readyState <$> <[ws := set_readyState CLOSED up]> (upstreamSockets w)
                    = <[ws := CLOSED]> (readyState <$> upstreamSockets w))
    by (etransitivity; [apply list_fmap_insert | reflexivity]).
  destruct (ws_close_throws ws) eqn:Hthrows; fields;
    [split; [reflexivity|]; split; [exact Hstates | discriminate]|].
  rewrite Hs. destruct (status s) eqn:Hst; fields;
    try (split; [reflexivity|]; split; [exact Hstates | discriminate]).
  destruct close_handler_sync eqn:Hsync; fields;
    [|split; [reflexivity|]; split; [exact Hstates | discriminate]].
  rewrite websocket_close_result.
  match goal with |- context [openUpstream ?w0 ws] =>
    assert (Hnone : openUpstream w0 ws = None)
  end.
  { apply openUpstream_None. intros s' u' up' Hs' Hu'' Hup'. fields.
    rewrite list_lookup_insert_eq in Hs' by exact Hlts. injection Hs' as <-.
    cbn [data set_status] in Hu''. rewrite Hu in Hu''. injection Hu'' as <-.
    rewrite list_lookup_insert_eq in Hup' by exact Hlt. injection Hup' as <-. discriminate. }
  rewrite Hnone. cbn [snd]. fields.
  split; [reflexivity|]. split; [exact Hstates | reflexivity].
Qed.

End Lifecycle.

(** ** Further examples on the concrete environments *)

(** X1 at an input: white space around the one entry. *)
Lemma validateWsToken_accepts_padded_entry_example :
  @validateWsToken exampleEnv 0 (Some "  access_token.valid.jwt ")
  = Some "access_token.valid.jwt".
Proof.
  apply (@validateWsToken_accepts_padded_entry exampleEnv 0 "  " "valid.jwt" " ");
    reflexivity.
Defined.

(** X2 at an input: the second entry of a padded header comes back clean. *)
Lemma validateWsToken_returns_clean_token_example :
  JsString.trim "access_token.valid.jwt" = "access_token.valid.jwt"
  /\ JsString.includes "access_token.valid.jwt" "," = false.
Proof.
  destruct (@validateWsToken_returns_clean_token exampleEnv 0
              (Some "chat ,  access_token.valid.jwt ,x") "access_token.valid.jwt")
    as (_ & Hcomma & Htrim & _); [vm_compute; reflexivity|].
  split; [exact Htrim | exact Hcomma].
Defined.

(** X4 at an input: the first upgrade of a fresh server. *)
Lemma validated_upgrade_outcome_example :
  exists w',
    @fetch exampleEnv 0 (exampleRequest (Some "access_token.valid.jwt")) initialWorld
    = (Returned None, w')
    /\ activeConnections w' = [0%nat]
    /\ calls w' = [NewWebSocket 0 (@buildDeepgramUrl exampleEnv
                                     [("model", "nova-2"); ("punctuate", "true")])].
Proof.
  destruct (@validated_upgrade_outcome exampleEnv 0
              (exampleRequest (Some "access_token.valid.jwt")) initialWorld
              "access_token.valid.jwt") as [_ Hup];
    [discriminate | reflexivity | vm_compute; reflexivity|].
  destruct (Hup eq_refl) as (w' & Hfetch & _ & _ & _ & _ & Hcalls).
  exists w'. split; [exact Hfetch|]. split; [|exact Hcalls].
  rewrite Hfetch in *. clear Hup Hcalls.
  vm_compute in Hfetch. injection Hfetch as <-. reflexivity.
Defined.

(** X8 at an input: a text and a binary frame from upstream socket 1. *)
Lemma upstream_messages_forwarded_in_order_example :
  calls (@run exampleEnv exampleSessions
           [EvUpstreamMessage 1 (TextFrame "{}"); EvUpstreamMessage 1 (BinaryFrame "ab")])
  = calls exampleSessions ++ [WsSend 1 (TextFrame "{}"); WsSend 1 (BinaryFrame "ab")].
Proof.
  assert (Hup : exists up, upstreamSockets exampleSessions !! 1%nat = Some up
                           /\ listeners up = Some 1%nat)
    by (eexists; vm_compute; split; reflexivity).
  destruct Hup as (up & Hup & Hl).
  destruct (@upstream_messages_forwarded_in_order exampleEnv
              [TextFrame "{}"; BinaryFrame "ab"] exampleSessions 1 1 up)
    as (Hcalls & _); [vm_compute; reflexivity | exact Hup | exact Hl|].
  exact Hcalls.
Defined.

(** X9 at an input: two frames from the client of session 2. *)
Lemma client_messages_forwarded_in_order_example :
  calls (@run exampleEnv exampleSessions
           [EvClientMessage 2 (BinaryFrame "pcm1"); EvClientMessage 2 (BinaryFrame "pcm2")])
  = calls exampleSessions
    ++ [UpstreamSend 2 (BinaryFrame "pcm1"); UpstreamSend 2 (BinaryFrame "pcm2")].
Proof.
  assert (Hopen : exists up, @openUpstream exampleSessions 2 = Some (2%nat, up))
    by (eexists; vm_compute; reflexivity).
  destruct Hopen as (up & Hopen).
  destruct (@client_messages_forwarded_in_order exampleEnv
              [BinaryFrame "pcm1"; BinaryFrame "pcm2"] exampleSessions 2 2 up)
    as (Hcalls & _); [vm_compute; reflexivity | exact Hopen|].
  exact Hcalls.
Defined.

(** X10 at an input: upstream socket 0 reports an error. *)
Lemma upstream_error_closes_client_example :
  exists s',
    clientSockets (@step exampleEnv exampleSessions (EvUpstreamError 0)) !! 0%nat = Some s'
    /\ status s' = WsClosedByServer (Some 1011%Z) (Some "Deepgram connection error").
Proof.
  assert (Hup : exists up, upstreamSockets exampleSessions !! 0%nat = Some up
                           /\ listeners up = Some 0%nat)
    by (eexists; vm_compute; split; reflexivity).
  destruct Hup as (up & Hup & Hl).
  destruct (@upstream_error_closes_client exampleEnv exampleSessions 0 0 up)
    as (_ & _ & _ & Hclosed); [vm_compute; reflexivity | exact Hup | exact Hl|].
  eapply Hclosed; vm_compute; reflexivity.
Defined.

(** X13 at an input: two sessions, one upstream socket open, then SIGINT. *)
Lemma exited_server_holds_no_session_example :
  activeConnections
    (@run quietEnv initialWorld
       [EvRequest 0 (exampleRequest (Some "access_token.valid.jwt"));
        EvRequest 1 (exampleRequest (Some "access_token.valid.jwt"));
        EvUpstreamOpen 0; EvProcess SIGINT]) = [].
Proof.
  destruct (@exited_server_holds_no_session quietEnv
              [EvRequest 0 (exampleRequest (Some "access_token.valid.jwt"));
               EvRequest 1 (exampleRequest (Some "access_token.valid.jwt"));
               EvUpstreamOpen 0; EvProcess SIGINT])
    as (_ & _ & Hreg & _);
    [reflexivity | reflexivity | vm_compute; discriminate|].
  exact Hreg.
Defined.

(** X14 at an input: the token issued at time 0 is presented at time 5. *)
Lemma issued_token_opens_a_session_example :
  exists w',
    @fetch exampleEnv 5 (exampleRequest (Some "access_token.valid.jwt")) initialWorld
    = (Returned None, w').
Proof.
  destruct (@issued_token_opens_a_session exampleEnv 0 5
              (exampleRequest (Some "access_token.valid.jwt")) initialWorld)
    as (_ & _ & w' & Hfetch & _); try reflexivity.
  exists w'. exact Hfetch.
Defined.

(** X15 at an input: one frame sent too early, one after the open. *)
Lemma early_audio_is_dropped_example :
  calls (@run exampleEnv
           (@step exampleEnv initialWorld
              (EvRequest 0 (exampleRequest (Some "access_token.valid.jwt"))))
           ([EvClientMessage 0 (BinaryFrame "early")]
            ++ [EvUpstreamOpen 0; EvClientMessage 0 (BinaryFrame "late")]))
  = [NewWebSocket 0 (@buildDeepgramUrl exampleEnv
                       [("model", "nova-2"); ("punctuate", "true")]);
     UpstreamSend 0 (BinaryFrame "late")].
Proof.
  destruct (@early_audio_is_dropped exampleEnv 0
              (exampleRequest (Some "access_token.valid.jwt")) initialWorld
              "access_token.valid.jwt" [BinaryFrame "early"] [BinaryFrame "late"])
    as [_ Hcalls];
    [reflexivity | reflexivity | discriminate | reflexivity | reflexivity
    | vm_compute; reflexivity |].
  exact Hcalls.
Defined.

(** X16 at an input: the upstream socket of session 2 closes with 1000. *)
Lemma upstream_close_is_not_echoed_example :
  calls (@step exampleEnv exampleSessions (EvUpstreamClose 2 1000 "bye"))
  = calls exampleSessions ++ [WsClose 2 (Some 1000%Z) (Some "bye")].
Proof.
  unfold exampleSessions.
  match goal with
  | |- context [@run _ initialWorld ?events] =>
      assert (Hs : exists s, clientSockets (@run exampleEnv initialWorld events) !! 2%nat = Some s
                             /\ deepgramWs (data s) = Some 2%nat)
        by (eexists; vm_compute; split; reflexivity);
      destruct Hs as (s & Hs & Hu);
      destruct (@upstream_close_is_not_echoed exampleEnv events 2 2 s 1000 "bye")
        as [Hcalls _]; [vm_compute; reflexivity | exact Hs | exact Hu|]
  end.
  exact Hcalls.
Defined.
